(** * Chorus: the feedback normalisation and theming pipeline

    A shallow embedding of [src/utils/csv.ts] and [src/utils/feedback.ts],
    of the column preferences of [src/utils/storage.ts] and of the handlers
    of the upload component, the theme card and the application that call
    them, and the properties of the pipeline they implement.

    JavaScript strings are sequences of UTF-16 code units.  The embedding
    keeps the code units below 256 (the Latin-1 range), one [ascii] each, so
    that [toLowerCase], [trim], [includes] and the regular expressions used
    by the source have their exact JavaScript meaning on that range.
    JavaScript numbers that are array indices, lengths and counters are
    natural numbers; the column scores, which the source computes with
    fractions, are binary64 floating-point numbers. *)

From Stdlib Require Import ZArith Floats Uint63.
From Stdlib Require Import String Ascii DecimalString.
From Stdlib Require Import List Bool Arith Lia Permutation.
Import ListNotations.

#[local] Set Warnings "-inexact-float".

(** ** JavaScript string primitives *)

Module JS.

Definition jsstring := list ascii.

(** A string literal of the source. *)
Definition str (s : string) : jsstring := list_ascii_of_string s.

Definition code (c : ascii) : nat := nat_of_ascii c.

Definition dquote : ascii := ascii_of_nat 34.
Definition newline : ascii := ascii_of_nat 10.
Definition cr : ascii := ascii_of_nat 13.
Definition comma : ascii := ascii_of_nat 44.
Definition semicolon : ascii := ascii_of_nat 59.

(** [===] on strings. *)
Fixpoint streq (a b : jsstring) : bool :=
  match a, b with
  | [], [] => true
  | x :: a', y :: b' => Ascii.eqb x y && streq a' b'
  | _, _ => false
  end.

(** WhiteSpace and LineTerminator code units below 256: TAB, LF, VT, FF, CR,
    SP and NBSP.  These are what [String.prototype.trim] strips. *)
Definition isWhiteSpace (c : ascii) : bool :=
  let n := code c in
  ((9 <=? n) && (n <=? 13)) || (n =? 32) || (n =? 160).

(** Upper-case letters below 256 and their lower-case counterparts:
    A-Z, and U+00C0..U+00DE without the multiplication sign U+00D7. *)
Definition toLowerChar (c : ascii) : ascii :=
  let n := code c in
  if ((65 <=? n) && (n <=? 90))
     || ((192 <=? n) && (n <=? 222) && negb (n =? 215))
  then ascii_of_nat (n + 32) else c.

Definition toLowerCase (s : jsstring) : jsstring := map toLowerChar s.

Fixpoint trimStart (s : jsstring) : jsstring :=
  match s with
  | [] => []
  | c :: r => if isWhiteSpace c then trimStart r else s
  end.

Definition trimEnd (s : jsstring) : jsstring := rev (trimStart (rev s)).

Definition trim (s : jsstring) : jsstring := trimEnd (trimStart s).

Fixpoint startsWith (s k : jsstring) {struct k} : bool :=
  match k, s with
  | [], _ => true
  | _ :: _, [] => false
  | a :: k', b :: s' => Ascii.eqb a b && startsWith s' k'
  end.

(** [s.includes(k)]: [k] occurs in [s] at some position. *)
Fixpoint includes (s k : jsstring) : bool :=
  startsWith s k ||
  match s with
  | [] => false
  | _ :: r => includes r k
  end.

(** What [includes] decides: [k] is a contiguous part of [s]. *)
Definition Substring (k s : jsstring) : Prop :=
  exists pre post, s = pre ++ k ++ post.

(** A string is trimmed when neither end is white space. *)
Definition Trimmed (s : jsstring) : Prop :=
  (forall c r, s = c :: r -> isWhiteSpace c = false) /\
  (forall c r, s = r ++ [c] -> isWhiteSpace c = false).

(** [a.some(p)], [a.every(p)], [a.slice(0, n)], [a.slice(lo, hi)]. *)
Definition some {A} (p : A -> bool) (a : list A) : bool := existsb p a.
Definition every {A} (p : A -> bool) (a : list A) : bool := forallb p a.
Definition slice {A} (lo hi : nat) (a : list A) : list A :=
  firstn (hi - lo) (skipn lo a).

(** [a.join(sep)]. *)
Fixpoint join (sep : jsstring) (a : list jsstring) : jsstring :=
  match a with
  | [] => []
  | [x] => x
  | x :: r => x ++ sep ++ join sep r
  end.

(** Puts a code unit in front of the first piece of a split. *)
Definition consHead (c : ascii) (pieces : list jsstring) : list jsstring :=
  match pieces with
  | [] => [[c]]
  | h :: t => (c :: h) :: t
  end.

(** [s.split('\n')]: the pieces between the line feeds; never empty. *)
Fixpoint splitLF (s : jsstring) : list jsstring :=
  match s with
  | [] => [[]]
  | c :: r =>
      if Ascii.eqb c newline then [] :: splitLF r
      else consHead c (splitLF r)
  end.

(** [s.split(/\r?\n/)]: a CR directly before an LF belongs to the separator. *)
Fixpoint splitCRLF (s : jsstring) : list jsstring :=
  match s with
  | [] => [[]]
  | c :: r =>
      if Ascii.eqb c newline then [] :: splitCRLF r
      else
        match r with
        | c2 :: r2 =>
            if Ascii.eqb c cr && Ascii.eqb c2 newline
            then [] :: splitCRLF r2
            else consHead c (splitCRLF r)
        | [] => consHead c (splitCRLF r)
        end
  end.

(** [String(n)] for a non-negative integer. *)
Definition ofNat (n : nat) : jsstring :=
  str (NilEmpty.string_of_uint (Nat.to_uint n)).

(** *** Numbers

    [Number] is the binary64 format of the primitive floats. *)

(** The Number that a length or a count is.  These stay far below 2^53,
    where every integer is a binary64 value. *)
Definition numberOf (n : nat) : float :=
  PrimFloat.of_uint63 (Uint63.of_Z (Z.of_nat n)).

Definition isNegZero (x : float) : bool :=
  match PrimFloat.classify x with NZero => true | _ => false end.

Definition isPosZero (x : float) : bool :=
  match PrimFloat.classify x with PZero => true | _ => false end.

(** The loop of [Math.max]: NaN as soon as an argument is NaN, positive
    zero above negative zero, and otherwise the greater of the two. *)
Fixpoint maxFrom (highest : float) (numbers : list float) : float :=
  match numbers with
  | [] => highest
  | number :: rest =>
      if PrimFloat.is_nan number then PrimFloat.nan
      else
        let highest :=
          if isPosZero number && isNegZero highest then number else highest in
        let highest :=
          if PrimFloat.ltb highest number then number else highest in
        maxFrom highest rest
  end.

(** [Math.max(...numbers)] *)
Definition Math_max (numbers : list float) : float :=
  maxFrom PrimFloat.neg_infinity numbers.

Fixpoint indexOfFrom (a : list float) (x : float) (i : Z) : Z :=
  match a with
  | [] => (-1)%Z
  | y :: rest =>
      if PrimFloat.eqb y x then i else indexOfFrom rest x (i + 1)%Z
  end.

(** [a.indexOf(x)] on numbers: the first index whose element is strictly
    equal to [x], or -1. *)
Definition indexOf (a : list float) (x : float) : Z := indexOfFrom a x 0%Z.

(** A value of the binary64 specification with the given sign: a zero, an
    infinity or a finite number, and not NaN. *)
Definition Signed (s : bool) (x : spec_float) : Prop :=
  match x with
  | S754_zero s' | S754_infinity s' | S754_finite s' _ _ => s' = s
  | S754_nan => False
  end.

(** Positive zero, a positive number or positive infinity. *)
Definition NonNeg (x : float) : Prop := Signed false (Prim2SF x).

(** [s.split(c)] for a one-character separator. *)
Fixpoint splitOn (c : ascii) (s : jsstring) : list jsstring :=
  match s with
  | [] => [[]]
  | x :: r =>
      if Ascii.eqb x c then [] :: splitOn c r
      else consHead x (splitOn c r)
  end.

(** A piece that does not end in a carriage return. *)
Definition NoFinalCR (p : jsstring) : Prop := forall q, p <> q ++ [cr].

End JS.

(** ** [src/utils/csv.ts] *)

Module Csv.
Import JS.

(** *** [parseCSVLine]

    The [for] loop over the index [i], with the three mutable locals
    [current], [inQuotes] and [result]. *)

Record LineState := mkLineState {
  ls_i : nat;
  ls_current : jsstring;
  ls_inQuotes : bool;
  ls_result : list jsstring
}.

Definition isChar (c : ascii) (x : option ascii) : bool :=
  match x with
  | Some y => Ascii.eqb y c
  | None => false
  end.

(** One iteration of the loop body followed by [i++]. *)
Definition parseCSVLine_body (line delimiter : jsstring) (st : LineState)
  : LineState :=
  let i := ls_i st in
  let char := nth_error line i in
  let nextChar := nth_error line (i + 1) in
  match char with
  | None => st
  | Some c =>
      if Ascii.eqb c dquote then
        if ls_inQuotes st && isChar dquote nextChar then
          mkLineState (i + 1 + 1) (ls_current st ++ [dquote])
                      (ls_inQuotes st) (ls_result st)
        else
          mkLineState (i + 1) (ls_current st)
                      (negb (ls_inQuotes st)) (ls_result st)
      else if streq [c] delimiter && negb (ls_inQuotes st) then
        mkLineState (i + 1) [] (ls_inQuotes st)
                    (ls_result st ++ [trim (ls_current st)])
      else
        mkLineState (i + 1) (ls_current st ++ [c])
                    (ls_inQuotes st) (ls_result st)
  end.

(** The loop: it runs while [i < line.length]; every iteration advances [i],
    so [line.length] iterations are always enough. *)
Fixpoint parseCSVLine_loop (fuel : nat) (line delimiter : jsstring)
    (st : LineState) : LineState :=
  match fuel with
  | 0 => st
  | S fuel' =>
      if ls_i st <? length line
      then parseCSVLine_loop fuel' line delimiter
             (parseCSVLine_body line delimiter st)
      else st
  end.

Definition parseCSVLine (line delimiter : jsstring) : list jsstring :=
  let st := parseCSVLine_loop (length line) line delimiter
              (mkLineState 0 [] false []) in
  ls_result st ++ [trim (ls_current st)].

(** The tokenizer as the specification words it: a scan over the remaining
    characters with the inside-quotes flag and the field being built. *)
Fixpoint tokenize (delimiter : jsstring) (rest : jsstring) (inQuotes : bool)
    (field : jsstring) : list jsstring :=
  match rest with
  | [] => [trim field]
  | c :: rest' =>
      if Ascii.eqb c dquote then
        match rest' with
        | c2 :: rest'' =>
            if inQuotes && Ascii.eqb c2 dquote
            then tokenize delimiter rest'' true (field ++ [dquote])
            else tokenize delimiter rest' (negb inQuotes) field
        | [] => tokenize delimiter rest' (negb inQuotes) field
        end
      else if negb inQuotes && streq [c] delimiter
      then trim field :: tokenize delimiter rest' false []
      else tokenize delimiter rest' inQuotes (field ++ [c])
  end.

(** The line of the round-trip example: two quoted fields, the first with
    an embedded comma, the second with a doubled quote, and a bare field. *)
Definition exampleLine : jsstring :=
  [dquote] ++ str "a,b" ++ [dquote] ++ str ","
  ++ [dquote] ++ str "c" ++ [dquote; dquote] ++ str "d" ++ [dquote]
  ++ str ",e".

(** *** [detectDelimiter] *)

Inductive Delimiter := Comma | Semicolon.

Definition delimiterText (d : Delimiter) : jsstring :=
  match d with
  | Comma => [comma]
  | Semicolon => [semicolon]
  end.

(** [(s.match(/c/g) || []).length] for a one-character pattern. *)
Definition countChar (c : ascii) (s : jsstring) : nat :=
  length (filter (Ascii.eqb c) s).

Definition detectDelimiter (sample : jsstring) : Delimiter :=
  let firstLines := join [newline] (slice 0 5 (splitLF sample)) in
  let commaCount := countChar comma firstLines in
  let semicolonCount := countChar semicolon firstLines in
  if commaCount <? semicolonCount then Semicolon else Comma.

(** *** [parseCSV] *)

Record ParsedCSV := mkParsedCSV {
  rows : list (list jsstring);
  headers : option (list jsstring);
  detectedDelimiter : Delimiter
}.

(** A value or a thrown error (a rejected promise for the [async] functions). *)
Inductive Outcome (A : Type) :=
| Returns (a : A)
| Throws (message : jsstring).
Arguments Returns {A} a.
Arguments Throws {A} message.

Definition isDigit (c : ascii) : bool := (48 <=? code c) && (code c <=? 57).

(** [/^\d+$/.test(s)] *)
Definition allDigits (s : jsstring) : bool :=
  (0 <? length s) && forallb isDigit s.

(** The callback given to [firstRow.every]. *)
Definition headerCell (cell : jsstring) : bool :=
  let trimmed := trim cell in
  (0 <? length trimmed) && (length trimmed <? 50) && negb (allDigits trimmed).

(** The rows of the file: its non-blank lines, tokenized. *)
Definition parsedLinesOf (text : jsstring) : list (list jsstring) :=
  let delimiter := detectDelimiter text in
  let lines := filter (fun line => 0 <? length (trim line)) (splitCRLF text) in
  map (fun line => parseCSVLine line (delimiterText delimiter)) lines.

(** [parseCSV], on the text of the file. *)
Definition parseCSV (text : jsstring) : Outcome ParsedCSV :=
  let delimiter := detectDelimiter text in
  let lines := filter (fun line => 0 <? length (trim line)) (splitCRLF text) in
  if length lines =? 0 then Throws (str "CSV file is empty")
  else
    let parsedLines :=
      map (fun line => parseCSVLine line (delimiterText delimiter)) lines in
    match nth_error parsedLines 0 with
    | None => Throws (str "TypeError")
    | Some firstRow =>
        let hasHeaders := every headerCell firstRow in
        if hasHeaders && (1 <? length parsedLines) then
          Returns (mkParsedCSV (skipn 1 parsedLines) (Some firstRow) delimiter)
        else
          Returns (mkParsedCSV parsedLines None delimiter)
    end.

(** A sample file: a header row and one data row. *)
Definition sampleFile : jsstring :=
  str "name,comment" ++ [newline] ++ str "1,hello".

(** The cell is not empty, shorter than 50 characters and not made of
    digits only. *)
Definition HeaderLike (cell : jsstring) : Prop :=
  cell <> [] /\ length cell < 50
  /\ ~ (forall c, In c cell -> isDigit c = true).

(** *** [chooseTextColumn] *)

Definition isAlpha (c : ascii) : bool :=
  ((65 <=? code c) && (code c <=? 90)) || ((97 <=? code c) && (code c <=? 122)).

(** [(cell.match(/[a-zA-Z]/g) || []).length] *)
Definition alphaOf (cell : jsstring) : nat := length (filter isAlpha cell).

(** The three counters of the scoring callback. *)
Record ColumnSums := mkColumnSums {
  totalLength : nat;
  alphaCount : nat;
  validCount : nat
}.

(** The body of [samples.forEach]; [row[colIndex]] is truthy when the cell
    exists and is not the empty string. *)
Definition column_visit (colIndex : nat) (st : ColumnSums)
    (row : list jsstring) : ColumnSums :=
  match nth_error row colIndex with
  | Some cell =>
      if 0 <? length cell then
        mkColumnSums (totalLength st + length cell)
                     (alphaCount st + alphaOf cell)
                     (validCount st + 1)
      else st
  | None => st
  end.

(** The callback of [headers.map]: the score of one column. *)
Definition columnScore (sampleRows : list (list jsstring)) (colIndex : nat)
  : float :=
  let samples := slice 0 (Nat.min 10 (length sampleRows)) sampleRows in
  let st := fold_left (column_visit colIndex) samples (mkColumnSums 0 0 0) in
  if validCount st =? 0 then 0%float
  else
    let avgLength :=
      (numberOf (totalLength st) / numberOf (validCount st))%float in
    let avgAlpha :=
      (numberOf (alphaCount st) / numberOf (validCount st))%float in
    (avgLength * 0.7 + avgAlpha * 0.3)%float.

Definition chooseTextColumn (headers : option (list jsstring))
    (sampleRows : list (list jsstring)) : Z :=
  match headers with
  | None => 0%Z
  | Some hs =>
      if length hs =? 0 then 0%Z
      else
        let scores := map (columnScore sampleRows) (seq 0 (length hs)) in
        let maxScore := Math_max scores in
        indexOf scores maxScore
  end.

(** The cell of the row in the column, when it exists and is not empty. *)
Definition cellAt (colIndex : nat) (row : list jsstring) : list jsstring :=
  match nth_error row colIndex with
  | Some cell => if 0 <? length cell then [cell] else []
  | None => []
  end.

(** The non-empty cells of a column among the first ten sample rows. *)
Definition sampledCells (sampleRows : list (list jsstring)) (colIndex : nat)
  : list jsstring :=
  flat_map (cellAt colIndex) (firstn 10 sampleRows).

(** Sample rows with sentences in column 0 and short codes in column 1. *)
Definition sampleRows2 : list (list jsstring) :=
  [ [str "The dashboard loads slowly on mobile"; str "17"];
    [str "Search results feel irrelevant"; str "204"];
    [str ""; str "9"] ].

(** *** [Map<string, string>]

    A JavaScript [Map] keeps its entries in insertion order; [set] on a key
    that is present replaces the value where it stands. *)

Definition JsMap := list (jsstring * jsstring).

Definition map_has (m : JsMap) (k : jsstring) : bool :=
  existsb (fun e => streq (fst e) k) m.

Definition map_get (m : JsMap) (k : jsstring) : option jsstring :=
  match find (fun e => streq (fst e) k) m with
  | Some e => Some (snd e)
  | None => None
  end.

Fixpoint map_set (m : JsMap) (k v : jsstring) : JsMap :=
  match m with
  | [] => [(k, v)]
  | e :: r => if streq (fst e) k then (fst e, v) :: r else e :: map_set r k v
  end.

Definition map_values (m : JsMap) : list jsstring := map snd m.

(** *** [mergeInputs] *)

Record MergeStats := mkMergeStats {
  textCount : nat;
  csvCount : nat;
  uniqueCount : nat;
  capped : bool;
  totalBeforeCap : nat
}.

Record MergeResult := mkMergeResult {
  merged : list jsstring;
  stats : MergeStats
}.

Definition MAX_LINES : nat := 500.

(** [line.toLowerCase().trim()], the key of both maps of this file. *)
Definition keyOf (line : jsstring) : jsstring := trim (toLowerCase line).

(** The body of [combined.forEach]. *)
Definition mergeInputs_visit (uniqueMap : JsMap) (line : jsstring) : JsMap :=
  let key := keyOf line in
  if (0 <? length key) && negb (map_has uniqueMap key)
  then map_set uniqueMap key line
  else uniqueMap.

Definition mergeInputs (textLines csvLines : list jsstring) : MergeResult :=
  let combined := textLines ++ csvLines in
  let uniqueMap := fold_left mergeInputs_visit combined [] in
  let unique := map_values uniqueMap in
  let totalBeforeCap := length unique in
  let capped := MAX_LINES <? length unique in
  let merged := slice 0 MAX_LINES unique in
  mkMergeResult merged
    (mkMergeStats (length textLines) (length csvLines) (length merged)
                  capped totalBeforeCap).

(** The merge as the specification words it: a line is kept exactly when its
    key is not empty and no line before it has the same key. *)
Fixpoint firstOccurrences (earlier lines : list jsstring) : list jsstring :=
  match lines with
  | [] => []
  | line :: rest =>
      (if (0 <? length (keyOf line))
          && negb (existsb (fun e => streq (keyOf e) (keyOf line)) earlier)
       then [line] else [])
      ++ firstOccurrences (earlier ++ [line]) rest
  end.

(** Some line of [earlier] has the key [k]. *)
Definition seenIn (earlier : list jsstring) (k : jsstring) : bool :=
  existsb (fun e => streq (keyOf e) k) earlier.

(** Six hundred lines with pairwise different, non-empty keys: the decimal
    numerals of 0..599, the first three hundred as free text. *)
Definition sampleTextLines : list jsstring := map ofNat (seq 0 300).
Definition sampleCsvLines : list jsstring := map ofNat (seq 300 300).

(** A decidable form of [NoDup] on strings. *)
Fixpoint distinct (l : list jsstring) : bool :=
  match l with
  | [] => true
  | x :: r => negb (existsb (streq x) r) && distinct r
  end.

(** *** [createLabeledCSV] *)

Inductive Level := Low | Med | High.

Record Theme := mkTheme {
  title : jsstring;
  summary : jsstring;
  quotes : list jsstring;
  impact : option Level;
  effort : option Level
}.

(** [s.replace] with the global pattern for the double quote and two double
    quotes as replacement. *)
Definition doubleQuotes (s : jsstring) : jsstring :=
  flat_map (fun c => if Ascii.eqb c dquote then [dquote; dquote] else [c]) s.

Definition quoted (s : jsstring) : jsstring :=
  [dquote] ++ doubleQuotes s ++ [dquote].

Definition labeledRow (line theme : jsstring) : jsstring :=
  quoted line ++ [comma] ++ quoted theme.

(** The body of the inner [theme.quotes.forEach]. *)
Definition themeMap_visit (themeTitle : jsstring) (themeMap : JsMap)
    (quote : jsstring) : JsMap :=
  let key := keyOf quote in
  if negb (map_has themeMap key) then map_set themeMap key themeTitle
  else themeMap.

Definition themeMapOf (themes : list Theme) : JsMap :=
  fold_left (fun m theme => fold_left (themeMap_visit (title theme))
                                      (quotes theme) m)
            themes [].

(** The body of [feedbackLines.forEach]; a string is truthy when it is not
    empty. *)
Definition labeled_visit (themeMap : JsMap) (lines : list jsstring)
    (line : jsstring) : list jsstring :=
  let key := keyOf line in
  match map_get themeMap key with
  | Some theme =>
      if 0 <? length theme then lines ++ [labeledRow line theme] else lines
  | None => lines
  end.

Definition csvHeader : jsstring := str "original_text,theme_title".

Definition createLabeledCSV (feedbackLines : list jsstring)
    (themes : list Theme) : jsstring :=
  let themeMap := themeMapOf themes in
  let lines := fold_left (labeled_visit themeMap) feedbackLines [csvHeader] in
  join [newline] lines.

(** The title under which the export labels a line, as the specification
    words it: that of the earliest theme one of whose quotes has the key of
    the line. *)
Definition earliestTheme (themes : list Theme) (line : jsstring)
  : option Theme :=
  find (fun t => existsb (fun quote => streq (keyOf quote) (keyOf line))
                         (quotes t))
       themes.

(** A quote of the theme has the key of the line. *)
Definition quotesLine (line : jsstring) (t : Theme) : bool :=
  existsb (fun quote => streq (keyOf quote) (keyOf line)) (quotes t).

(** The rows the export writes for one feedback line. *)
Definition rowsOf (themes : list Theme) (line : jsstring) : list jsstring :=
  match earliestTheme themes line with
  | Some t => if 0 <? length (title t) then [labeledRow line (title t)] else []
  | None => []
  end.

(** Two themes that share the quote x, the first with an empty title. *)
Definition untitledFirst : list Theme :=
  [ mkTheme [] (str "first") [str "x"] None None;
    mkTheme (str "B") (str "second") [str "x"] None None ].

(** *** [extractTextFromCSV] *)

Record ParseResult := mkParseResult {
  textLines : list jsstring;
  columnIndex : Z;
  totalRows : nat;
  nonEmptyRows : nat
}.

(** [row[columnIndex]] for an integer index: undefined below 0 and from the
    length of the row on. *)
Definition cellOf (row : list jsstring) (index : Z) : option jsstring :=
  if (index <? 0)%Z then None else nth_error row (Z.to_nat index).

(** The body of [parsed.rows.forEach]; the cell must be truthy, and its
    trimmed text must not be empty. *)
Definition extract_visit (index : Z) (lines : list jsstring)
    (row : list jsstring) : list jsstring :=
  match cellOf row index with
  | Some cell =>
      if 0 <? length cell then
        let text := trim cell in
        if 0 <? length text then lines ++ [text] else lines
      else lines
  | None => lines
  end.

Definition extractTextFromCSV (parsed : ParsedCSV) (index : Z) : ParseResult :=
  let lines := fold_left (extract_visit index) (rows parsed) [] in
  mkParseResult lines index (length (rows parsed)) (length lines).

(** The rows of a parsed table with the header row, when there is one, put
    back in front. *)
Definition allRows (parsed : ParsedCSV) : list (list jsstring) :=
  match headers parsed with
  | Some h => h :: rows parsed
  | None => rows parsed
  end.

(** A table of two columns whose second column holds the comments. *)
Definition sampleTable : ParsedCSV :=
  mkParsedCSV [[str "1"; str " slow "]; [str "2"]; [str "3"; str "  "];
               [str "4"; str "crash"]]
              (Some [str "id"; str "comment"]) Comma.

(** The trimmed text of the cell of the row in the column, when the cell
    exists and its text is not empty. *)
Definition textAt (index : Z) (row : list jsstring) : list jsstring :=
  match cellOf row index with
  | Some cell => if 0 <? length (trim cell) then [trim cell] else []
  | None => []
  end.

(** The cells that reading the labeled export back gives for one feedback
    line: the trimmed line and the trimmed title of its earliest theme. *)
Definition labeledCells (themes : list Theme) (line : jsstring)
  : list (list jsstring) :=
  match earliestTheme themes line with
  | Some t =>
      if 0 <? length (title t) then [[trim line; trim (title t)]] else []
  | None => []
  end.

End Csv.

(** ** [src/utils/feedback.ts] *)

Module Feedback.
Import JS.
Export Csv(Level(..), Theme, mkTheme, title, summary, quotes, impact, effort,
           Outcome(..)).

(** *** [mockAnalysis] *)

Definition usabilityKeywords : list jsstring :=
  map str ["confus"; "find"; "navigat"; "unclear"; "settings"; "preferences"]%string.
Definition designKeywords : list jsstring :=
  map str ["dark mode"; "color"; "beautiful"; "design"; "look"]%string.
Definition performanceKeywords : list jsstring :=
  map str ["slow"; "performance"; "load"; "crash"; "forever"]%string.
Definition featureKeywords : list jsstring :=
  map str ["export"; "download"; "data"; "csv"; "feature"]%string.
Definition visualKeywords : list jsstring :=
  map str ["chart"; "visualiz"; "graph"; "basic"]%string.
Definition supportKeywords : list jsstring :=
  map str ["support"; "team"; "help"; "friendly"; "responded"]%string.

(** [l => keywords.some(k => l.toLowerCase().includes(k))] *)
Definition mentions (keywords : list jsstring) (l : jsstring) : bool :=
  some (fun k => includes (toLowerCase l) k) keywords.

(** A theme literal of [mockAnalysis]: no impact, no effort. *)
Definition theme (t s : string) (qs : list jsstring) : Theme :=
  mkTheme (str t) (str s) qs None None.

(** [themes.push(t)] under [if (matching.length >= 2)]. *)
Definition pushBucket (matching : list jsstring) (t s : string)
    (themes : list Theme) : list Theme :=
  if 2 <=? length matching
  then themes ++ [theme t s (slice 0 3 matching)]
  else themes.

(** [Math.ceil(n / 3)]; the quotient of two array lengths is exact enough in
    binary64 for the ceiling to be the integer one. *)
Definition ceilDiv3 (n : nat) : nat :=
  n / 3 + (if n mod 3 =? 0 then 0 else 1).

Definition chunkTheme (i : nat) (chunk : list jsstring) : Theme :=
  mkTheme (str "Theme " ++ ofNat (i + 1))
          (str "User feedback grouped by similarity.")
          (slice 0 3 chunk) None None.

(** The [for] loop of the chunk branch; [i < 3] bounds the iterations. *)
Fixpoint chunkLoop (fuel : nat) (lines : list jsstring) (chunkSize i : nat)
    (themes : list Theme) : list Theme :=
  match fuel with
  | 0 => themes
  | S fuel' =>
      if (i <? 3) && (i * chunkSize <? length lines) then
        let chunk := slice (i * chunkSize) ((i + 1) * chunkSize) lines in
        let themes' :=
          if 0 <? length chunk then themes ++ [chunkTheme i chunk]
          else themes in
        chunkLoop fuel' lines chunkSize (i + 1) themes'
      else themes
  end.

Definition mockAnalysis (lines : list jsstring) : list Theme :=
  let themes : list Theme := [] in
  let usability := filter (mentions usabilityKeywords) lines in
  let design := filter (mentions designKeywords) lines in
  let performance := filter (mentions performanceKeywords) lines in
  let features := filter (mentions featureKeywords) lines in
  let visualization := filter (mentions visualKeywords) lines in
  let support := filter (mentions supportKeywords) lines in
  let themes := pushBucket usability
    "Navigation and Usability Issues"
    "Users struggle to find key features and navigate the interface effectively."
    themes in
  let themes := pushBucket design
    "Positive Design Feedback"
    "Users appreciate the visual design and aesthetic choices."
    themes in
  let themes := pushBucket performance
    "Performance and Stability Concerns"
    "Users report slow loading times and reliability issues."
    themes in
  let themes := pushBucket features
    "Export Functionality Praised"
    "Users value the ability to export and download their data."
    themes in
  let themes := pushBucket visualization
    "Visualization Enhancement Requests"
    "Users want more advanced charting and data visualization options."
    themes in
  let themes := pushBucket support
    "Customer Support Excellence"
    "Users report positive experiences with customer support team."
    themes in
  let themes :=
    if length themes =? 0
    then chunkLoop 3 lines (ceilDiv3 (length lines)) 0 themes
    else themes in
  slice 0 5 themes.

(** The six buckets as the specification lists them: keywords, title and
    summary, in the order in which they are evaluated. *)
Record Bucket := mkBucket {
  keywords : list jsstring;
  bucketTitle : string;
  bucketSummary : string
}.

Definition buckets : list Bucket :=
  [ mkBucket usabilityKeywords
      "Navigation and Usability Issues"
      "Users struggle to find key features and navigate the interface effectively.";
    mkBucket designKeywords
      "Positive Design Feedback"
      "Users appreciate the visual design and aesthetic choices.";
    mkBucket performanceKeywords
      "Performance and Stability Concerns"
      "Users report slow loading times and reliability issues.";
    mkBucket featureKeywords
      "Export Functionality Praised"
      "Users value the ability to export and download their data.";
    mkBucket visualKeywords
      "Visualization Enhancement Requests"
      "Users want more advanced charting and data visualization options.";
    mkBucket supportKeywords
      "Customer Support Excellence"
      "Users report positive experiences with customer support team." ].

(** A line matches a bucket when its lower-cased text contains one of the
    bucket's keywords. *)
Definition Matches (b : Bucket) (line : jsstring) : Prop :=
  exists k, In k (keywords b) /\ Substring k (toLowerCase line).

(** The lines of the input that match the bucket, in input order. *)
Definition matching (b : Bucket) (lines : list jsstring) : list jsstring :=
  filter (mentions (keywords b)) lines.

(** The theme of a bucket: its canned title and summary and the first three
    matching lines. *)
Definition bucketTheme (lines : list jsstring) (b : Bucket) : Theme :=
  theme (bucketTitle b) (bucketSummary b) (firstn 3 (matching b lines)).

(** The bucket branch: a theme for each bucket with at least two matching
    lines, in bucket order. *)
Definition bucketBranch (lines : list jsstring) : list Theme :=
  map (bucketTheme lines)
      (filter (fun b => 2 <=? length (matching b lines)) buckets).

(** The [i]-th of the contiguous chunks of size [ceil(n / 3)]. *)
Definition chunkAt (lines : list jsstring) (i : nat) : list jsstring :=
  firstn (ceilDiv3 (length lines)) (skipn (i * ceilDiv3 (length lines)) lines).

(** The generic theme of the [i]-th chunk, when the chunk is not empty. *)
Definition chunkThemeAt (lines : list jsstring) (i : nat) : list Theme :=
  if 0 <? length (chunkAt lines i) then [chunkTheme i (chunkAt lines i)]
  else [].

(** The chunk branch: taken when no bucket qualified. *)
Definition chunkBranch (lines : list jsstring) : list Theme :=
  match bucketBranch lines with
  | [] => flat_map (chunkThemeAt lines) [0; 1; 2]
  | _ :: _ => []
  end.

(** The two lines of the example. *)
Definition crashLines : list jsstring :=
  [str "App crashes on load"; str "Frequent crashes reported"].

(** *** [guessImpactEffort] *)

Definition highImpactWords : list jsstring :=
  map str ["crash"; "broken"; "fail"; "error"; "critical"; "urgent";
           "blocker"; "security"; "data loss"]%string.
Definition medImpactWords : list jsstring :=
  map str ["slow"; "confus"; "unclear"; "difficult"; "problem"; "issue";
           "concern"]%string.
Definition lowImpactWords : list jsstring :=
  map str ["nice"; "would love"; "wish"; "suggestion"; "prefer"; "minor"]%string.

Definition highEffortWords : list jsstring :=
  map str ["redesign"; "rebuild"; "architecture"; "refactor";
           "infrastructure"; "migration"]%string.
Definition medEffortWords : list jsstring :=
  map str ["add"; "implement"; "create"; "develop"; "build"; "feature"]%string.
Definition lowEffortWords : list jsstring :=
  map str ["fix"; "update"; "change"; "adjust"; "tweak"; "improve"; "polish"]%string.

(** [words.some(w => text.includes(w))] *)
Definition anyWord (words : list jsstring) (text : jsstring) : bool :=
  some (fun w => includes text w) words.

(** The [if / else if / else if] ladder over a variable initialised to Med. *)
Definition ladder (high low med : list jsstring) (text : jsstring) : Level :=
  let level := Med in
  if anyWord high text then High
  else if anyWord low text then Low
  else if anyWord med text then Med
  else level.

Definition guessImpactEffort (t : Theme) : Level * Level :=
  let text := toLowerCase (title t ++ str " " ++ summary t) in
  let impact := ladder highImpactWords lowImpactWords medImpactWords text in
  let effort := ladder highEffortWords lowEffortWords medEffortWords text in
  (impact, effort).

(** *** [analyzeFeedback]

    The remote call is the one thing the function does not decide itself:
    what [fetch], [response.json()] and the property accesses on the decoded
    body produce is given as data. *)

(** [data.content[0].text]: a property access that throws, a value that is
    not a string (so that [content.match] throws), or a string. *)
Inductive Content :=
| ContentThrows
| ContentNotString
| ContentText (text : jsstring).

(** [response.json()]: rejects, or decodes to some data. *)
Inductive Body :=
| BodyRejects
| BodyData (content : Content).

(** [fetch(...)]: rejects, or resolves to a response with its [ok] flag. *)
Inductive Fetch :=
| FetchRejects
| FetchResponse (ok : bool) (body : Body).

Definition openBracket : ascii := ascii_of_nat 91.
Definition closeBracket : ascii := ascii_of_nat 93.

(** The longest prefix of [s] that ends in a closing bracket. *)
Fixpoint upToLastClose (s : jsstring) : option jsstring :=
  match s with
  | [] => None
  | c :: r =>
      match upToLastClose r with
      | Some p => Some (c :: p)
      | None => if Ascii.eqb c closeBracket then Some [c] else None
      end
  end.

(** [content.match(/\[[\s\S]*\]/)]: from the first opening bracket to the
    last closing bracket after it; when no closing bracket follows the first
    opening one, none follows a later one either. *)
Fixpoint matchArray (content : jsstring) : option jsstring :=
  match content with
  | [] => None
  | c :: r =>
      if Ascii.eqb c openBracket then
        match upToLastClose r with
        | Some p => Some (c :: p)
        | None => None
        end
      else matchArray r
  end.

Definition nonEmptyLines (text : jsstring) : list jsstring :=
  filter (fun line => 0 <? length line) (map trim (splitLF text)).

Section Analyze.

(** [JSON.parse], at the type the function declares for what it returns;
    [None] when it throws. *)
Variable JSON_parse : jsstring -> option (list Theme).

(** The body of the [try] block: a value, or [None] when control reaches the
    [catch] clause. *)
Definition tryRemote (lines : list jsstring) (remote : Fetch)
  : option (list Theme) :=
  match remote with
  | FetchRejects => None
  | FetchResponse ok body =>
      if negb ok then Some (mockAnalysis lines)
      else
        match body with
        | BodyRejects => None
        | BodyData ContentThrows => None
        | BodyData ContentNotString => None
        | BodyData (ContentText content) =>
            match matchArray content with
            | Some jsonMatch => JSON_parse jsonMatch
            | None => Some (mockAnalysis lines)
            end
        end
  end.

Definition analyzeFeedback (text : jsstring) (remote : Fetch)
  : Outcome (list Theme) :=
  let lines := nonEmptyLines text in
  if length lines <? 3 then Throws (str "Not enough feedback lines")
  else
    match tryRemote lines remote with
    | Some themes => Returns themes
    | None => Returns (mockAnalysis lines)
    end.

(** The outcomes of the remote call that count as its failure: a network
    error, a non-success status, an exception while the response is decoded
    or its text is reached, a text without an array literal, and an array
    literal that [JSON.parse] rejects. *)
Inductive RemoteFails : Fetch -> Prop :=
| NetworkError : RemoteFails FetchRejects
| NonSuccessStatus body : RemoteFails (FetchResponse false body)
| BodyNotJson : RemoteFails (FetchResponse true BodyRejects)
| ContentMissing : RemoteFails (FetchResponse true (BodyData ContentThrows))
| ContentNoString :
    RemoteFails (FetchResponse true (BodyData ContentNotString))
| NoArrayLiteral content :
    matchArray content = None ->
    RemoteFails (FetchResponse true (BodyData (ContentText content)))
| ArrayNotJson content jsonMatch :
    matchArray content = Some jsonMatch ->
    JSON_parse jsonMatch = None ->
    RemoteFails (FetchResponse true (BodyData (ContentText content))).

End Analyze.

(** Three lines that match no bucket, and the text that holds them. *)
Definition plainLines : list jsstring := [str "aaa"; str "bbb"; str "ccc"].
Definition plainText : jsstring := join [newline] plainLines.

(** A response text holding the array literal of one theme without quotes,
    and [JSON.parse] restricted to that literal. *)
Definition quotelessLiteral : jsstring :=
  let q := [dquote] in
  str "[{" ++ q ++ str "title" ++ q ++ str ":" ++ q ++ str "T" ++ q ++ str ","
  ++ q ++ str "summary" ++ q ++ str ":" ++ q ++ str "S" ++ q ++ str ","
  ++ q ++ str "quotes" ++ q ++ str ":[]}]".

Definition quotelessTheme : Theme := mkTheme (str "T") (str "S") [] None None.

Definition parseQuoteless (s : jsstring) : option (list Theme) :=
  if streq s quotelessLiteral then Some [quotelessTheme] else None.

(** The summary of the tagging example. *)
Definition criticalSummary : jsstring :=
  str "The app has a critical security issue".

End Feedback.

(** ** [src/utils/storage.ts] *)

Module Storage.
Import JS Csv.

(** The order of the default [sort]: by code units, a proper prefix first. *)
Fixpoint strleb (a b : jsstring) : bool :=
  match a, b with
  | [], _ => true
  | _ :: _, [] => false
  | x :: a', y :: b' =>
      if code x <? code y then true
      else if code y <? code x then false
      else strleb a' b'
  end.

Fixpoint insertString (x : jsstring) (sorted : list jsstring)
  : list jsstring :=
  match sorted with
  | [] => [x]
  | y :: rest =>
      if strleb x y then x :: sorted else y :: insertString x rest
  end.

(** [a.sort()] on strings: the sorted rearrangement of the array, which for
    this order does not depend on the sorting method. *)
Definition sortStrings (a : list jsstring) : list jsstring :=
  fold_right insertString [] a.

Definition headerSetHash (headers : list jsstring) : jsstring :=
  join (str "|") (sortStrings (map (fun h => trim (toLowerCase h)) headers)).






End Storage.

(** ** The theme card and the handlers of the application *)

Module App.
Import JS Csv Feedback.

(** The theme of the application state: the theme of the utilities with the
    optional custom title. *)
Record Card := mkCard {
  card_theme : Theme;
  customTitle : option jsstring
}.

(** [theme.customTitle?.trim() || theme.title] *)
Definition getEffectiveTitle (c : Card) : jsstring :=
  match customTitle c with
  | Some custom =>
      if 0 <? length (trim custom) then trim custom
      else title (card_theme c)
  | None => title (card_theme c)
  end.

(** A word character of a regular expression: a letter, a digit or the
    underscore. *)
Definition isWordChar (c : ascii) : bool :=
  isAlpha c || isDigit c || (code c =? 95).

(** The test of the pattern for one or more characters that are neither
    word characters nor white space, anchored at both ends. *)
Definition onlyPunctuation (s : jsstring) : bool :=
  (0 <? length s)
  && forallb (fun c => negb (isWordChar c) && negb (isWhiteSpace c)) s.

(** [validateTitle]: the error message, or [None] for [null]. *)
Definition validateTitle (value : jsstring) : option jsstring :=
  let trimmed := trim value in
  if length trimmed <? 2 then
    Some (str "Title must be at least 2 characters")
  else if 48 <? length trimmed then
    Some (str "Title must be 48 characters or less")
  else if onlyPunctuation trimmed then
    Some (str "Title cannot contain only punctuation")
  else None.

(** The state of the title editor of a card. *)
Record Editor := mkEditor {
  isEditing : bool;
  editValue : jsstring;
  editError : jsstring
}.

(** [saveEdit]: the next state of the editor and the argument of the call
    of [onRename], when it is called. *)
Definition saveEdit (c : Card) (ed : Editor) : Editor * option jsstring :=
  match validateTitle (editValue ed) with
  | Some validationError =>
      (mkEditor (isEditing ed) (editValue ed) validationError, None)
  | None =>
      let trimmed := trim (editValue ed) in
      (mkEditor false (editValue ed) [],
       if streq trimmed (getEffectiveTitle c) then None else Some trimmed)
  end.

(** [prev.map((theme, i) => i === index ? ... : theme)] *)
Fixpoint mapAt {A} (f : A -> A) (index : nat) (l : list A) : list A :=
  match l, index with
  | [], _ => []
  | x :: r, 0 => f x :: r
  | x :: r, S i => x :: mapAt f i r
  end.

Definition handleRenameTheme (index : nat) (newTitle : jsstring)
    (themes : list Card) : list Card :=
  mapAt (fun c => mkCard (card_theme c) (Some newTitle)) index themes.

Definition handleResetTitles (themes : list Card) : list Card :=
  map (fun c => mkCard (card_theme c) None) themes.

(** The themes after [saveEdit] on the card at [index]. *)
Definition renameVia (index : nat) (ed : Editor) (themes : list Card)
  : list Card :=
  match nth_error themes index with
  | Some c =>
      match snd (saveEdit c ed) with
      | Some newTitle => handleRenameTheme index newTitle themes
      | None => themes
      end
  | None => themes
  end.



Section Analyze.

Variable JSON_parse : jsstring -> option (list Theme).


End Analyze.

End App.

(** * Properties *)

(** ** Facts about the string primitives *)

Module JSFacts.
Import JS.

Lemma streq_true_iff (a b : jsstring) : streq a b = true <-> a = b.
Proof.
  revert b; induction a as [|x a IH]; intros [|y b]; simpl;
    try (split; [discriminate | discriminate]); [tauto|].
  rewrite andb_true_iff, Ascii.eqb_eq, IH.
  split; [intros [-> ->]; reflexivity | intros E; inversion E; auto].
Qed.

Lemma streq_refl (a : jsstring) : streq a a = true.
Proof. apply streq_true_iff; reflexivity. Qed.

Lemma streq_false_iff (a b : jsstring) : streq a b = false <-> a <> b.
Proof.
  rewrite <- streq_true_iff. destruct (streq a b); split; congruence.
Qed.

Lemma streq_sym (a b : jsstring) : streq a b = streq b a.
Proof.
  destruct (streq a b) eqn:E.
  - apply streq_true_iff in E; subst; symmetry; apply streq_refl.
  - symmetry; apply streq_false_iff; apply streq_false_iff in E; congruence.
Qed.

(** [startsWith] decides being a prefix. *)
Lemma startsWith_true_iff (s k : jsstring) :
  startsWith s k = true <-> exists post, s = k ++ post.
Proof.
  revert s; induction k as [|a k IH]; intros s; simpl.
  - split; [exists s; reflexivity | reflexivity].
  - destruct s as [|b s].
    + split; [discriminate | intros [post E]; discriminate].
    + rewrite andb_true_iff, Ascii.eqb_eq, IH. split.
      * intros [-> [post ->]]; exists post; reflexivity.
      * intros [post E]; inversion E; subst; eauto.
Qed.

(** [includes] decides [Substring]. *)
Lemma includes_true_iff (s k : jsstring) :
  includes s k = true <-> Substring k s.
Proof.
  unfold Substring; induction s as [|c s IH].
  - simpl. rewrite orb_false_r, startsWith_true_iff. split.
    + intros [post E]; exists [], post; exact E.
    + intros [pre [post E]]. destruct pre as [|x pre]; [|discriminate].
      exists post; exact E.
  - change (includes (c :: s) k)
      with (startsWith (c :: s) k || includes s k).
    rewrite orb_true_iff, startsWith_true_iff, IH. split.
    + intros [[post E] | [pre [post E]]].
      * exists [], post; exact E.
      * exists (c :: pre), post; rewrite E; reflexivity.
    + intros [pre [post E]]. destruct pre as [|x pre].
      * left; exists post; exact E.
      * right; inversion E; subst; eauto.
Qed.

Lemma Substring_app_r (k s pre : jsstring) :
  Substring k s -> Substring k (pre ++ s).
Proof.
  intros [a [b ->]]. exists (pre ++ a), b. now rewrite app_assoc.
Qed.

Lemma Substring_app_l (k s post : jsstring) :
  Substring k s -> Substring k (s ++ post).
Proof.
  intros [a [b ->]]. exists a, (b ++ post). now rewrite <- !app_assoc.
Qed.

Lemma trimStart_head (s : jsstring) c r :
  trimStart s = c :: r -> isWhiteSpace c = false.
Proof.
  induction s as [|x s IH]; simpl; [discriminate|].
  destruct (isWhiteSpace x) eqn:E; [exact IH|].
  intros H; inversion H; subst; exact E.
Qed.

Lemma trimStart_suffix (s : jsstring) :
  exists pre, s = pre ++ trimStart s /\ forallb isWhiteSpace pre = true.
Proof.
  induction s as [|x s [pre [E F]]]; simpl.
  - exists []; auto.
  - destruct (isWhiteSpace x) eqn:W.
    + exists (x :: pre); simpl; rewrite W, F; split; [congruence | reflexivity].
    + exists []; auto.
Qed.

Lemma trimStart_fixed (s : jsstring) :
  (forall c r, s = c :: r -> isWhiteSpace c = false) -> trimStart s = s.
Proof.
  destruct s as [|c r]; simpl; [reflexivity|].
  intros H; rewrite (H c r eq_refl); reflexivity.
Qed.

Lemma trimStart_last (s : jsstring) c r :
  (forall c' r', s = r' ++ [c'] -> isWhiteSpace c' = false) ->
  trimStart s = r ++ [c] -> isWhiteSpace c = false.
Proof.
  intros H E. destruct (trimStart_suffix s) as [pre [Es _]].
  apply (H c (pre ++ r)). rewrite Es at 1. rewrite E, app_assoc; reflexivity.
Qed.

Lemma trimEnd_last (s : jsstring) c r :
  trimEnd s = r ++ [c] -> isWhiteSpace c = false.
Proof.
  unfold trimEnd; intros E.
  apply (f_equal (@rev ascii)) in E.
  rewrite rev_involutive, rev_app_distr in E; simpl in E.
  eapply trimStart_head; exact E.
Qed.

Lemma trimEnd_prefix (s : jsstring) :
  exists post, s = trimEnd s ++ post.
Proof.
  unfold trimEnd. destruct (trimStart_suffix (rev s)) as [pre [E _]].
  exists (rev pre).
  rewrite <- rev_app_distr, <- E, rev_involutive; reflexivity.
Qed.

Lemma trimEnd_head (s : jsstring) c r :
  (forall c' r', s = c' :: r' -> isWhiteSpace c' = false) ->
  trimEnd s = c :: r -> isWhiteSpace c = false.
Proof.
  intros H E. destruct (trimEnd_prefix s) as [post Es].
  apply (H c (r ++ post)). rewrite Es at 1. rewrite E; reflexivity.
Qed.

Lemma trimEnd_fixed (s : jsstring) :
  (forall c r, s = r ++ [c] -> isWhiteSpace c = false) -> trimEnd s = s.
Proof.
  intros H; unfold trimEnd.
  rewrite trimStart_fixed; [apply rev_involutive|].
  intros c r E. apply (H c (rev r)).
  rewrite <- (rev_involutive s), E; reflexivity.
Qed.

(** What [trim] returns has no white space at either end. *)
Lemma trim_Trimmed (s : jsstring) : Trimmed (trim s).
Proof.
  unfold trim; split; intros c r E.
  - eapply trimEnd_head; [|exact E].
    intros c' r' E'; eapply trimStart_head; exact E'.
  - eapply trimEnd_last; exact E.
Qed.

Lemma Trimmed_trim (s : jsstring) : Trimmed s -> trim s = s.
Proof.
  intros [H1 H2]; unfold trim.
  rewrite (trimStart_fixed _ H1). exact (trimEnd_fixed _ H2).
Qed.

Lemma trim_idempotent (s : jsstring) : trim (trim s) = trim s.
Proof. apply Trimmed_trim, trim_Trimmed. Qed.

End JSFacts.

(** ** The tokenizer *)

Module CsvLineFacts.
Import JS Csv JSFacts.

Lemma skipn_nth_error {A} (l : list A) i c :
  nth_error l i = Some c -> skipn i l = c :: skipn (i + 1) l.
Proof.
  revert l; induction i as [|i IH]; intros [|x l]; simpl; try discriminate.
  - intros E; inversion E; reflexivity.
  - apply IH.
Qed.

Lemma skipn_next {A} (l : list A) i c r :
  skipn i l = c :: r -> skipn (i + 1) l = r.
Proof.
  intros E. rewrite Nat.add_comm, <- skipn_skipn, E; reflexivity.
Qed.

Lemma nth_error_skipn_head {A} (l : list A) i :
  nth_error l i = hd_error (skipn i l).
Proof.
  revert l; induction i as [|i IH]; intros [|x l]; simpl; auto.
Qed.

(** The loop invariant: what is still to be emitted from state [st] is what
    the scan emits from the characters at and after [i]. *)
Lemma parseCSVLine_loop_tokenize (line delimiter : jsstring) :
  forall fuel st,
    length line - ls_i st <= fuel ->
    let st' := parseCSVLine_loop fuel line delimiter st in
    ls_result st' ++ [trim (ls_current st')]
    = ls_result st
      ++ tokenize delimiter (skipn (ls_i st) line)
                  (ls_inQuotes st) (ls_current st).
Proof.
  induction fuel as [|fuel IH]; intros [i cur q res] Hf;
    cbn [ls_i ls_current ls_inQuotes ls_result parseCSVLine_loop] in *.
  - rewrite skipn_all2 by lia; reflexivity.
  - destruct (i <? length line) eqn:Hi.
    2:{ apply Nat.ltb_ge in Hi.
        cbn [ls_i ls_current ls_inQuotes ls_result].
        rewrite skipn_all2 by lia; reflexivity. }
    apply Nat.ltb_lt in Hi.
    unfold parseCSVLine_body;
      cbn [ls_i ls_current ls_inQuotes ls_result].
    destruct (nth_error line i) as [c|] eqn:Hc.
    2:{ apply nth_error_None in Hc; lia. }
    rewrite (skipn_nth_error _ _ _ Hc).
    rewrite (nth_error_skipn_head line (i + 1)).
    assert (Hlen : length (skipn (i + 1) line) = length line - (i + 1))
      by apply length_skipn.
    cbn [tokenize].
    destruct (Ascii.eqb c dquote) eqn:Hq.
    + destruct (skipn (i + 1) line) as [|c2 r2] eqn:Hs; cbn [hd_error isChar].
      * rewrite andb_false_r.
        rewrite IH by (cbn [ls_i]; lia).
        cbn [ls_i ls_current ls_inQuotes ls_result].
        rewrite Hs; reflexivity.
      * destruct (q && Ascii.eqb c2 dquote) eqn:Hqq.
        -- apply andb_true_iff in Hqq as [-> _].
           rewrite IH by (cbn [ls_i length] in *; lia).
           cbn [ls_i ls_current ls_inQuotes ls_result].
           rewrite (skipn_next _ _ _ _ Hs); reflexivity.
        -- rewrite IH by (cbn [ls_i]; lia).
           cbn [ls_i ls_current ls_inQuotes ls_result].
           rewrite Hs; reflexivity.
    + rewrite (andb_comm (negb q)).
      destruct (streq [c] delimiter && negb q) eqn:Hd.
      * apply andb_true_iff in Hd as [_ Hn].
        destruct q; [discriminate|].
        rewrite IH by (cbn [ls_i]; lia).
        cbn [ls_i ls_current ls_inQuotes ls_result].
        rewrite <- app_assoc; reflexivity.
      * rewrite IH by (cbn [ls_i]; lia). reflexivity.
Qed.

(** The loop stops only once every character has been read. *)
Lemma parseCSVLine_loop_done (line delimiter : jsstring) :
  forall fuel st,
    length line - ls_i st <= fuel ->
    length line <= ls_i (parseCSVLine_loop fuel line delimiter st).
Proof.
  induction fuel as [|fuel IH]; intros st Hf;
    cbn [parseCSVLine_loop]; [lia|].
  destruct (ls_i st <? length line) eqn:Hi.
  - apply Nat.ltb_lt in Hi. apply IH.
    unfold parseCSVLine_body.
    destruct (nth_error line (ls_i st)) as [c|] eqn:Hc.
    2:{ apply nth_error_None in Hc; lia. }
    destruct (Ascii.eqb c dquote);
      [destruct (ls_inQuotes st && isChar dquote (nth_error line (ls_i st + 1)))
      |destruct (streq [c] delimiter && negb (ls_inQuotes st))];
      cbn [ls_i]; lia.
  - apply Nat.ltb_ge in Hi; exact Hi.
Qed.

Lemma parseCSVLine_tokenize (line delimiter : jsstring) :
  parseCSVLine line delimiter = tokenize delimiter line false [].
Proof.
  unfold parseCSVLine.
  rewrite (parseCSVLine_loop_tokenize line delimiter (length line)
             (mkLineState 0 [] false [])) by (simpl; lia).
  reflexivity.
Qed.

Lemma tokenize_Trimmed (delimiter : jsstring) :
  forall n rest inQuotes field f,
    length rest <= n ->
    In f (tokenize delimiter rest inQuotes field) -> Trimmed f.
Proof.
  induction n as [|n IH]; intros [|c rest] q field f Hn;
    cbn [tokenize length] in *; try lia.
  - intros [<-|[]]; apply trim_Trimmed.
  - intros [<-|[]]; apply trim_Trimmed.
  - destruct (Ascii.eqb c dquote).
    + destruct rest as [|c2 rest2].
      * cbn [tokenize]. intros [<-|[]]; apply trim_Trimmed.
      * destruct (q && Ascii.eqb c2 dquote); apply IH;
          cbn [length] in *; lia.
    + destruct (negb q && streq [c] delimiter).
      * intros [<-|H]; [apply trim_Trimmed|].
        revert H; apply IH; lia.
      * apply IH; lia.
Qed.

(** C4.  For every line and delimiter [parseCSVLine] is the left-to-right
    scan with an inside-quotes flag: at the end of the line the pending field
    is emitted; a double quote followed by another one while inside quotes
    adds one literal quote to the field and consumes both; any other double
    quote toggles the flag; the delimiter ends a field only when the flag is
    off and is an ordinary character when it is on; every other character is
    added to the field.  Every emitted field is trimmed, and the example line
    with delimiter comma yields the three fields [a,b], [c] quote [d], and [e]. *)
Theorem parseCSVLine_spec (line delimiter : jsstring) :
  parseCSVLine line delimiter = tokenize delimiter line false []
  /\ (forall rest inQuotes field,
        tokenize delimiter [] inQuotes field = [trim field]
        /\ tokenize delimiter (dquote :: dquote :: rest) true field
           = tokenize delimiter rest true (field ++ [dquote])
        /\ (inQuotes = false \/ hd_error rest <> Some dquote ->
            tokenize delimiter (dquote :: rest) inQuotes field
            = tokenize delimiter rest (negb inQuotes) field)
        /\ (forall c, c <> dquote ->
              ([c] = delimiter ->
               tokenize delimiter (c :: rest) false field
               = trim field :: tokenize delimiter rest false [])
              /\ ([c] = delimiter ->
                  tokenize delimiter (c :: rest) true field
                  = tokenize delimiter rest true (field ++ [c]))
              /\ ([c] <> delimiter ->
                  tokenize delimiter (c :: rest) inQuotes field
                  = tokenize delimiter rest inQuotes (field ++ [c]))))
  /\ (forall f, In f (parseCSVLine line delimiter) -> Trimmed f)
  /\ parseCSVLine exampleLine [comma]
     = [str "a,b"; str "c" ++ [dquote] ++ str "d"; str "e"].
Proof.
  split; [apply parseCSVLine_tokenize|].
  split; [|split; [|reflexivity]].
  - intros rest q field. split; [reflexivity|].
    split; [reflexivity|]. split.
    + intros H. cbn [tokenize]. rewrite Ascii.eqb_refl.
      destruct rest as [|c2 rest2]; [reflexivity|].
      destruct H as [-> | H]; [reflexivity|].
      destruct (Ascii.eqb c2 dquote) eqn:E.
      * apply Ascii.eqb_eq in E; subst; exfalso; apply H; reflexivity.
      * rewrite andb_false_r; reflexivity.
    + intros c Hc. apply Ascii.eqb_neq in Hc.
      repeat split; intros Hd; cbn [tokenize]; rewrite Hc.
      * rewrite Hd, streq_refl; reflexivity.
      * reflexivity.
      * apply streq_false_iff in Hd; rewrite Hd, andb_false_r; reflexivity.
  - intros f Hf. rewrite parseCSVLine_tokenize in Hf.
    exact (tokenize_Trimmed delimiter (length line) line false [] f
             (le_n _) Hf).
Qed.

(** The theorem at the example line: the comma inside the first pair of
    quotes does not split, the one after it does. *)
Lemma parseCSVLine_spec_witness :
  parseCSVLine exampleLine [comma] = tokenize [comma] exampleLine false []
  /\ tokenize [comma] (dquote :: str "x") false []
     = tokenize [comma] (str "x") true []
  /\ tokenize [comma] (comma :: str "x") false (str "a")
     = str "a" :: tokenize [comma] (str "x") false []
  /\ tokenize [comma] (comma :: str "x") true (str "a")
     = tokenize [comma] (str "x") true (str "a,")
  /\ tokenize [comma] (str "bx") false (str "a")
     = tokenize [comma] (str "x") false (str "ab")
  /\ Trimmed (str "a,b").
Proof.
  destruct (parseCSVLine_spec exampleLine [comma]) as [H1 [H2 [H3 H4]]].
  destruct (H2 (str "x") false (str "a")) as [_ [_ [_ Hc]]].
  destruct (H2 (str "x") false []) as [_ [_ [Hq _]]].
  destruct (Hc comma) as [Ha [Hb _]]; [discriminate|].
  destruct (Hc (ascii_of_nat 98)) as [_ [_ Hd]]; [discriminate|].
  split; [exact H1|].
  split; [apply Hq; left; reflexivity|].
  split; [apply Ha; reflexivity|].
  split; [apply Hb; reflexivity|].
  split; [apply Hd; discriminate|].
  apply H3. rewrite H4. left; reflexivity.
Defined.

End CsvLineFacts.

(** ** Header detection *)

Module HeaderFacts.
Import JS Csv JSFacts CsvLineFacts.

(** Every cell of every parsed row is trimmed. *)
Lemma parsedLinesOf_Trimmed (text : jsstring) row cell :
  In row (parsedLinesOf text) -> In cell row -> Trimmed cell.
Proof.
  unfold parsedLinesOf. intros Hr Hc.
  apply in_map_iff in Hr as [line [<- _]].
  rewrite parseCSVLine_tokenize in Hc.
  exact (tokenize_Trimmed _ (length line) line false [] cell (le_n _) Hc).
Qed.

Lemma headerCell_true_iff (cell : jsstring) :
  Trimmed cell -> (headerCell cell = true <-> HeaderLike cell).
Proof.
  intros Ht. unfold headerCell, HeaderLike, allDigits.
  rewrite (Trimmed_trim _ Ht).
  rewrite !andb_true_iff, negb_true_iff, Nat.ltb_lt, Nat.ltb_lt.
  rewrite <- forallb_forall.
  destruct cell as [|c cell]; cbn [length].
  - split; [intros [[H _] _]; lia | intros [H _]; congruence].
  - replace (0 <? S (length cell)) with true by reflexivity. cbn [andb].
    destruct (forallb isDigit (c :: cell)); split.
    + intros [_ H]; discriminate.
    + intros [_ [_ H]]; exfalso; apply H; reflexivity.
    + intros [[_ H] _]. split; [discriminate|]. split; [exact H|].
      discriminate.
    + intros [_ [H _]]. split; [split; [lia | exact H] | reflexivity].
Qed.

(** C7.  With the rows of the file being its non-blank lines, tokenized:
    a file without rows is rejected; otherwise the first row becomes the
    header row, and the rest the data rows, exactly when every cell of it is
    not empty, shorter than 50 characters and not made of digits only, and
    there is a row after it; in every other case all rows, the first one
    included, are data and there are no headers. *)
Theorem parseCSV_headers (text : jsstring) :
  (parsedLinesOf text = [] ->
   parseCSV text = Throws (str "CSV file is empty"))
  /\ (forall firstRow rest,
        parsedLinesOf text = firstRow :: rest ->
        ((forall cell, In cell firstRow -> HeaderLike cell) /\ rest <> [] ->
         parseCSV text
         = Returns (mkParsedCSV rest (Some firstRow) (detectDelimiter text)))
        /\ (~ ((forall cell, In cell firstRow -> HeaderLike cell)
               /\ rest <> []) ->
            parseCSV text
            = Returns (mkParsedCSV (firstRow :: rest) None
                                   (detectDelimiter text)))).
Proof.
  unfold parseCSV, parsedLinesOf.
  set (lines := filter (fun line => 0 <? length (trim line)) (splitCRLF text)).
  set (parse := fun line => parseCSVLine line
                              (delimiterText (detectDelimiter text))).
  split.
  - intros E. destruct lines; [reflexivity | discriminate].
  - intros firstRow rest E.
    assert (Hl : (length lines =? 0) = false).
    { apply Nat.eqb_neq. intros Z. apply length_zero_iff_nil in Z.
      rewrite Z in E. discriminate. }
    rewrite Hl, E. cbn [nth_error skipn length].
    assert (Hh : every headerCell firstRow = true <->
                 forall cell, In cell firstRow -> HeaderLike cell).
    { unfold every. rewrite forallb_forall.
      assert (Ht : forall cell, In cell firstRow -> Trimmed cell).
      { intros cell Hc.
        apply (parsedLinesOf_Trimmed text firstRow cell); [|exact Hc].
        unfold parsedLinesOf. fold lines. fold parse.
        rewrite E. now left. }
      split; intros H cell Hc; apply (headerCell_true_iff _ (Ht cell Hc));
        auto. }
    assert (Hr : (1 <? S (length rest)) = true <-> rest <> []).
    { rewrite Nat.ltb_lt. destruct rest; cbn [length];
        split; intros; try lia; congruence. }
    split.
    + intros [H1 H2]. apply Hh in H1. apply Hr in H2.
      rewrite H1, H2. reflexivity.
    + intros Hn.
      destruct (every headerCell firstRow) eqn:E1;
        destruct (1 <? S (length rest)) eqn:E2; try reflexivity.
      exfalso; apply Hn. split; [apply Hh | apply Hr]; reflexivity.
Qed.

(** The theorem at the sample file: its first row is the header row. *)
Lemma parseCSV_headers_witness :
  parseCSV sampleFile
  = Returns (mkParsedCSV [[str "1"; str "hello"]]
                         (Some [str "name"; str "comment"]) Comma).
Proof.
  destruct (parseCSV_headers sampleFile) as [_ H].
  destruct (H [str "name"; str "comment"] [[str "1"; str "hello"]])
    as [H1 _]; [vm_compute; reflexivity|].
  rewrite H1; [vm_compute; reflexivity|].
  split; [|discriminate].
  intros cell [<-|[<-|[]]]; (split; [discriminate|]);
    (split; [vm_compute; lia|]); intros D.
  - specialize (D (ascii_of_nat 110) (or_introl eq_refl)).
    vm_compute in D. discriminate.
  - specialize (D (ascii_of_nat 99) (or_introl eq_refl)).
    vm_compute in D. discriminate.
Defined.

End HeaderFacts.

(** ** The input merger *)

Module MergeFacts.
Import JS Csv JSFacts.

Lemma map_has_app (m : JsMap) k v k' :
  map_has (m ++ [(k, v)]) k' = map_has m k' || streq k k'.
Proof.
  unfold map_has. rewrite existsb_app. simpl. now rewrite orb_false_r.
Qed.

(** [set] on a key that is absent appends the entry. *)
Lemma map_set_fresh (m : JsMap) k v :
  map_has m k = false -> map_set m k v = m ++ [(k, v)].
Proof.
  induction m as [|e m IH]; simpl; [reflexivity|].
  intros H. apply orb_false_iff in H as [H1 H2].
  rewrite H1, (IH H2). reflexivity.
Qed.

(** The invariant of [combined.forEach]: the keys of the map are the
    non-empty keys of the lines visited so far. *)
Lemma mergeInputs_fold (rest : list jsstring) :
  forall (m : JsMap) (earlier : list jsstring),
    (forall k, (0 <? length k) = true -> map_has m k = seenIn earlier k) ->
    map_values (fold_left mergeInputs_visit rest m)
    = map_values m ++ firstOccurrences earlier rest.
Proof.
  induction rest as [|line rest IH]; intros m earlier Inv;
    cbn [fold_left firstOccurrences].
  - now rewrite app_nil_r.
  - unfold mergeInputs_visit at 2.
    fold (seenIn earlier (keyOf line)).
    destruct (0 <? length (keyOf line)) eqn:Hne; cbn [andb].
    + rewrite <- (Inv _ Hne).
      destruct (map_has m (keyOf line)) eqn:Hhas; cbn [negb].
      * rewrite (IH m (earlier ++ [line])); [reflexivity|].
        intros k Hk. unfold seenIn. rewrite existsb_app. simpl.
        rewrite orb_false_r. fold (seenIn earlier k). rewrite <- (Inv k Hk).
        destruct (streq (keyOf line) k) eqn:E.
        -- apply streq_true_iff in E; subst. rewrite Hhas; reflexivity.
        -- now rewrite orb_false_r.
      * rewrite (map_set_fresh _ _ _ Hhas).
        rewrite (IH _ (earlier ++ [line])).
        -- unfold map_values. rewrite map_app, <- app_assoc. reflexivity.
        -- intros k Hk. rewrite map_has_app, (Inv k Hk).
           unfold seenIn. rewrite existsb_app. simpl.
           now rewrite orb_false_r.
    + rewrite (IH m (earlier ++ [line])); [reflexivity|].
      intros k Hk. unfold seenIn. rewrite existsb_app. simpl.
      rewrite orb_false_r. fold (seenIn earlier k). rewrite <- (Inv k Hk).
      destruct (streq (keyOf line) k) eqn:E.
      * apply streq_true_iff in E; subst. congruence.
      * now rewrite orb_false_r.
Qed.

Lemma mergeInputs_unique (textLines csvLines : list jsstring) :
  map_values (fold_left mergeInputs_visit (textLines ++ csvLines) [])
  = firstOccurrences [] (textLines ++ csvLines).
Proof.
  rewrite (mergeInputs_fold _ [] []); [reflexivity|].
  intros k _; reflexivity.
Qed.

(** Lines whose keys are non-empty and pairwise different are all kept. *)
Lemma firstOccurrences_all (lines : list jsstring) :
  forall earlier,
    NoDup (map keyOf (earlier ++ lines)) ->
    (forall l, In l lines -> keyOf l <> []) ->
    firstOccurrences earlier lines = lines.
Proof.
  induction lines as [|line rest IH]; intros earlier Hnd Hne;
    cbn [firstOccurrences]; [reflexivity|].
  assert (Hk : (0 <? length (keyOf line)) = true).
  { apply Nat.ltb_lt. specialize (Hne line (or_introl eq_refl)).
    destruct (keyOf line); [congruence | simpl; lia]. }
  assert (Hs : existsb (fun e => streq (keyOf e) (keyOf line)) earlier = false).
  { destruct (existsb _ earlier) eqn:E; [|reflexivity].
    apply existsb_exists in E as [e [He Hee]].
    apply streq_true_iff in Hee.
    rewrite map_app in Hnd. simpl in Hnd.
    apply NoDup_remove_2 in Hnd. exfalso; apply Hnd.
    apply in_or_app; left. rewrite <- Hee. now apply in_map. }
  rewrite Hk, Hs. cbn [andb negb app]. f_equal.
  apply IH.
  - now rewrite <- app_assoc.
  - intros l Hl; apply Hne; now right.
Qed.

Lemma distinct_NoDup (l : list jsstring) : distinct l = true -> NoDup l.
Proof.
  induction l as [|x r IH]; simpl; [constructor|].
  intros H. apply andb_true_iff in H as [H1 H2].
  constructor; [|now apply IH].
  intros Hin. apply negb_true_iff in H1.
  assert (existsb (streq x) r = true); [|congruence].
  apply existsb_exists. exists x; split; [exact Hin | apply streq_refl].
Qed.

(** C3.  [mergeInputs] keeps, of the free-text lines followed by the CSV
    lines, each line whose lower-cased and trimmed key is not empty and is
    not the key of an earlier line, unchanged and in order, and caps that
    sequence at 500: [merged] is its first 500 entries, [totalBeforeCap] is
    its length, [capped] holds exactly when that length exceeds 500, and
    [merged.length] is the minimum of [totalBeforeCap] and 500.  Hence 600
    lines with non-empty, pairwise different keys give 500 merged lines,
    [capped] true and [totalBeforeCap] 600. *)
Theorem mergeInputs_spec (textLines csvLines : list jsstring) :
  let r := mergeInputs textLines csvLines in
  let unique := firstOccurrences [] (textLines ++ csvLines) in
  merged r = firstn 500 unique
  /\ totalBeforeCap (stats r) = length unique
  /\ (capped (stats r) = true <-> 500 < length unique)
  /\ length (merged r) = Nat.min (totalBeforeCap (stats r)) 500
  /\ uniqueCount (stats r) = length (merged r)
  /\ textCount (stats r) = length textLines
  /\ csvCount (stats r) = length csvLines
  /\ (NoDup (map keyOf (textLines ++ csvLines)) ->
      (forall l, In l (textLines ++ csvLines) -> keyOf l <> []) ->
      length (textLines ++ csvLines) = 600 ->
      merged r = firstn 500 (textLines ++ csvLines)
      /\ length (merged r) = 500
      /\ capped (stats r) = true
      /\ totalBeforeCap (stats r) = 600).
Proof.
  cbv zeta. unfold mergeInputs, MAX_LINES, slice.
  cbn [merged stats totalBeforeCap capped uniqueCount textCount csvCount skipn].
  rewrite mergeInputs_unique, Nat.sub_0_r.
  set (unique := firstOccurrences [] (textLines ++ csvLines)).
  split; [reflexivity|]. split; [reflexivity|].
  split; [apply Nat.ltb_lt|].
  split; [rewrite length_firstn; apply Nat.min_comm|].
  split; [reflexivity|]. split; [reflexivity|]. split; [reflexivity|].
  intros Hnd Hne Hlen.
  assert (E : unique = textLines ++ csvLines)
    by (apply firstOccurrences_all; assumption).
  rewrite E, length_firstn, Hlen.
  split; [reflexivity|]. split; [reflexivity|]. split; reflexivity.
Qed.

(** The theorem at six hundred numerals. *)
Lemma mergeInputs_spec_witness :
  length (merged (mergeInputs sampleTextLines sampleCsvLines)) = 500
  /\ capped (stats (mergeInputs sampleTextLines sampleCsvLines)) = true
  /\ totalBeforeCap (stats (mergeInputs sampleTextLines sampleCsvLines)) = 600.
Proof.
  destruct (mergeInputs_spec sampleTextLines sampleCsvLines)
    as [_ [_ [_ [_ [_ [_ [_ H]]]]]]].
  destruct H as [_ [H1 [H2 H3]]].
  - apply distinct_NoDup. vm_compute. reflexivity.
  - intros l Hl E.
    assert (F : forallb (fun l => 0 <? length (keyOf l))
                  (sampleTextLines ++ sampleCsvLines) = true)
      by (vm_compute; reflexivity).
    rewrite forallb_forall in F. specialize (F l Hl).
    rewrite E in F. discriminate.
  - vm_compute. reflexivity.
  - split; [exact H1|]. split; [exact H2 | exact H3].
Defined.

End MergeFacts.

(** ** The labeled-CSV export *)

Module ExportFacts.
Import JS Csv JSFacts MergeFacts.

Lemma map_get_app (m : JsMap) k v k' :
  map_get (m ++ [(k, v)]) k'
  = match map_get m k' with
    | Some x => Some x
    | None => if streq k k' then Some v else None
    end.
Proof.
  unfold map_get. induction m as [|e m IH]; simpl.
  - destruct (streq k k'); reflexivity.
  - destruct (streq (fst e) k'); [reflexivity | exact IH].
Qed.

Lemma map_has_get (m : JsMap) k :
  map_has m k = match map_get m k with Some _ => true | None => false end.
Proof.
  unfold map_has, map_get. induction m as [|e m IH]; simpl; [reflexivity|].
  destruct (streq (fst e) k); [reflexivity | exact IH].
Qed.

(** The inner [forEach]: a key keeps the title it has; a new key of one of
    the quotes gets the title of the theme. *)
Lemma themeMap_quotes (themeTitle : jsstring) (qs : list jsstring) :
  forall (m : JsMap) k,
    map_get (fold_left (themeMap_visit themeTitle) qs m) k
    = match map_get m k with
      | Some x => Some x
      | None => if existsb (fun quote => streq (keyOf quote) k) qs
                then Some themeTitle else None
      end.
Proof.
  induction qs as [|quote qs IH]; intros m k; cbn [fold_left existsb].
  - destruct (map_get m k); reflexivity.
  - rewrite IH. unfold themeMap_visit.
    destruct (map_has m (keyOf quote)) eqn:Hhas; cbn [negb].
    + rewrite map_has_get in Hhas.
      destruct (map_get m k) eqn:Hk; [reflexivity|].
      destruct (streq (keyOf quote) k) eqn:E; [|reflexivity].
      apply streq_true_iff in E; subst. rewrite Hk in Hhas; discriminate.
    + rewrite (map_set_fresh _ _ _ Hhas), map_get_app.
      destruct (map_get m k); [reflexivity|].
      destruct (streq (keyOf quote) k); reflexivity.
Qed.

(** The outer [forEach]: first occurrence of the key wins. *)
Lemma themeMap_themes (themes : list Theme) :
  forall (m : JsMap) k,
    map_get (fold_left (fun m t => fold_left (themeMap_visit (title t))
                                             (quotes t) m) themes m) k
    = match map_get m k with
      | Some x => Some x
      | None =>
          option_map title
            (find (fun t => existsb (fun quote => streq (keyOf quote) k)
                                    (quotes t)) themes)
      end.
Proof.
  induction themes as [|t themes IH]; intros m k; cbn [fold_left find].
  - destruct (map_get m k); reflexivity.
  - rewrite IH, themeMap_quotes.
    destruct (map_get m k); [reflexivity|].
    destruct (existsb _ (quotes t)); reflexivity.
Qed.

Lemma themeMapOf_get (themes : list Theme) (line : jsstring) :
  map_get (themeMapOf themes) (keyOf line)
  = option_map title (earliestTheme themes line).
Proof. unfold themeMapOf. rewrite themeMap_themes. reflexivity. Qed.

Lemma labeled_fold (themes : list Theme) (feedbackLines : list jsstring) :
  forall acc,
    fold_left (labeled_visit (themeMapOf themes)) feedbackLines acc
    = acc ++ flat_map (rowsOf themes) feedbackLines.
Proof.
  induction feedbackLines as [|line rest IH]; intros acc;
    cbn [fold_left flat_map].
  - now rewrite app_nil_r.
  - rewrite IH. unfold labeled_visit, rowsOf.
    rewrite themeMapOf_get.
    destruct (earliestTheme themes line) as [t|]; cbn [option_map].
    + destruct (0 <? length (title t)); [|reflexivity].
      now rewrite <- app_assoc.
    + reflexivity.
Qed.

(** What [find] finds is the first element with the property. *)
Lemma find_first {A} (p : A -> bool) (l : list A) (x : A) :
  find p l = Some x <->
  exists pre post,
    l = pre ++ x :: post /\ p x = true /\ forallb (fun y => negb (p y)) pre = true.
Proof.
  induction l as [|a l IH]; cbn [find].
  - split; [discriminate|]. intros [pre [post [E _]]].
    destruct pre; discriminate.
  - destruct (p a) eqn:Ha.
    + split.
      * intros E; inversion E; subst. exists [], l; auto.
      * intros [pre [post [E [Hx Hpre]]]]. destruct pre as [|b pre].
        -- inversion E; reflexivity.
        -- inversion E; subst. simpl in Hpre. rewrite Ha in Hpre.
           discriminate.
    + rewrite IH. split.
      * intros [pre [post [E [Hx Hpre]]]]. exists (a :: pre), post.
        subst; simpl. rewrite Ha. auto.
      * intros [pre [post [E [Hx Hpre]]]]. destruct pre as [|b pre].
        -- inversion E; subst. congruence.
        -- inversion E; subst. simpl in Hpre.
           apply andb_true_iff in Hpre as [_ Hpre]. eauto.
Qed.

(** C10, as the code has it.  The export is the header row followed, in
    feedback-line order, by the rows of each line, joined by line feeds; a
    line has at most one row; its label is the title of the earliest theme,
    in theme order, one of whose quotes has the lower-cased and trimmed key of
    the line, and the row is written when that title is not empty; a line
    whose earliest theme has the empty title, or that no theme quotes, has
    no row. *)
Theorem createLabeledCSV_spec (feedbackLines : list jsstring)
    (themes : list Theme) :
  createLabeledCSV feedbackLines themes
  = join [newline] (csvHeader :: flat_map (rowsOf themes) feedbackLines)
  /\ (forall line,
        length (rowsOf themes line) <= 1
        /\ (forall t, earliestTheme themes line = Some t ->
                      title t <> [] ->
                      rowsOf themes line = [labeledRow line (title t)])
        /\ (forall t, earliestTheme themes line = Some t ->
                      title t = [] -> rowsOf themes line = [])
        /\ (earliestTheme themes line = None -> rowsOf themes line = [])
        /\ (forall t, earliestTheme themes line = Some t <->
                      exists earlier later,
                        themes = earlier ++ t :: later
                        /\ quotesLine line t = true
                        /\ forallb (fun t' => negb (quotesLine line t'))
                                   earlier = true)).
Proof.
  split.
  - unfold createLabeledCSV. rewrite labeled_fold. reflexivity.
  - intros line. unfold rowsOf.
    split; [|split; [|split; [|split]]].
    + destruct (earliestTheme themes line) as [t|]; [|simpl; lia].
      destruct (0 <? length (title t)); simpl; lia.
    + intros t -> Ht. destruct (title t); [congruence | reflexivity].
    + intros t -> ->. reflexivity.
    + intros ->. reflexivity.
    + intros t. apply find_first.
Qed.

(** The theorem at two themes that share a quote, both titled. *)
Lemma createLabeledCSV_spec_witness :
  let themes := [ mkTheme (str "A") [] [str "x"] None None;
                  mkTheme (str "B") [] [str " X "; str "y"] None None ] in
  createLabeledCSV [str "X"; str "z"; str "Y"] themes
  = join [newline] [csvHeader; labeledRow (str "X") (str "A");
                    labeledRow (str "Y") (str "B")]
  /\ rowsOf themes (str "X") = [labeledRow (str "X") (str "A")]
  /\ rowsOf themes (str "z") = [].
Proof.
  cbv zeta.
  destruct (createLabeledCSV_spec [str "X"; str "z"; str "Y"]
              [ mkTheme (str "A") [] [str "x"] None None;
                mkTheme (str "B") [] [str " X "; str "y"] None None ])
    as [H1 H2].
  split; [rewrite H1; vm_compute; reflexivity|].
  split.
  - destruct (H2 (str "X")) as [_ [H _]].
    apply (H (mkTheme (str "A") [] [str "x"] None None));
      [vm_compute; reflexivity | discriminate].
  - destruct (H2 (str "z")) as [_ [_ [_ [H _]]]].
    apply H. vm_compute; reflexivity.
Defined.

(** C10 as stated fails when the earliest theme has the empty title: the
    line x is quoted by both themes of [untitledFirst], the earliest is the
    untitled one, and the export has no row for the line at all, neither
    with the earliest title nor with the later one. *)
Lemma createLabeledCSV_untitled_first :
  earliestTheme untitledFirst (str "x")
  = Some (mkTheme [] (str "first") [str "x"] None None)
  /\ createLabeledCSV [str "x"] untitledFirst = csvHeader
  /\ createLabeledCSV [str "x"] untitledFirst
     <> join [newline] [csvHeader; labeledRow (str "x") []]
  /\ createLabeledCSV [str "x"] untitledFirst
     <> join [newline] [csvHeader; labeledRow (str "x") (str "B")].
Proof.
  split; [reflexivity|]. split; [vm_compute; reflexivity|].
  split; vm_compute; discriminate.
Qed.

End ExportFacts.

(** ** The fallback classifier *)

Module MockFacts.
Import JS Csv Feedback JSFacts.

Lemma In_firstn {A} (n : nat) (l : list A) (x : A) :
  In x (firstn n l) -> In x l.
Proof.
  intros H. rewrite <- (firstn_skipn n l). apply in_or_app; now left.
Qed.

Lemma In_skipn {A} (n : nat) (l : list A) (x : A) :
  In x (skipn n l) -> In x l.
Proof.
  intros H. rewrite <- (firstn_skipn n l). apply in_or_app; now right.
Qed.

Lemma slice_0 {A} (n : nat) (l : list A) : slice 0 n l = firstn n l.
Proof. unfold slice. now rewrite Nat.sub_0_r. Qed.

Lemma mentions_Matches (b : Bucket) (line : jsstring) :
  mentions (keywords b) line = true <-> Matches b line.
Proof.
  unfold mentions, some, Matches. rewrite existsb_exists.
  split; intros [k [Hk H]]; exists k; (split; [exact Hk|]);
    now apply includes_true_iff.
Qed.

Lemma pushBucket_app (m : list jsstring) (t u : string) (themes : list Theme) :
  pushBucket m t u themes
  = themes ++ (if 2 <=? length m then [theme t u (firstn 3 m)] else []).
Proof.
  unfold pushBucket. rewrite slice_0.
  destruct (2 <=? length m); [reflexivity | now rewrite app_nil_r].
Qed.

Lemma map_filter_flat_map {A B} (p : A -> bool) (f : A -> B) (l : list A) :
  map f (filter p l) = flat_map (fun x => if p x then [f x] else []) l.
Proof.
  induction l as [|x l IH]; simpl; [reflexivity|].
  destruct (p x); simpl; now rewrite IH.
Qed.

(** [ceilDiv3] is the ceiling of the third. *)
Lemma ceilDiv3_bounds (n : nat) : n <= 3 * ceilDiv3 n < n + 3.
Proof.
  unfold ceilDiv3.
  pose proof (Nat.div_mod_eq n 3) as E.
  pose proof (Nat.mod_upper_bound n 3 ltac:(lia)) as B.
  destruct (n mod 3 =? 0) eqn:Z;
    [apply Nat.eqb_eq in Z | apply Nat.eqb_neq in Z]; lia.
Qed.

Lemma chunkThemeAt_beyond (lines : list jsstring) (i : nat) :
  length lines <= i * ceilDiv3 (length lines) -> chunkThemeAt lines i = [].
Proof.
  intros H. unfold chunkThemeAt, chunkAt.
  rewrite skipn_all2 by exact H. now rewrite firstn_nil.
Qed.

(** The [for] loop emits the theme of every non-empty chunk from [i] on. *)
Lemma chunkLoop_from (lines : list jsstring) :
  forall fuel i themes,
    i + fuel = 3 ->
    chunkLoop fuel lines (ceilDiv3 (length lines)) i themes
    = themes ++ flat_map (chunkThemeAt lines) (seq i fuel).
Proof.
  set (size := ceilDiv3 (length lines)).
  induction fuel as [|fuel IH]; intros i themes Hi;
    cbn [chunkLoop seq flat_map].
  - now rewrite app_nil_r.
  - replace (i <? 3) with true by (symmetry; apply Nat.ltb_lt; lia).
    cbn [andb].
    destruct (i * size <? length lines) eqn:Hlt.
    + rewrite IH by lia.
      replace (i + 1) with (S i) by lia.
      assert (E : slice (i * size) (S i * size) lines = chunkAt lines i).
      { unfold slice, chunkAt. fold size. f_equal. simpl; lia. }
      rewrite E. unfold chunkThemeAt at 2.
      destruct (0 <? length (chunkAt lines i)).
      * now rewrite <- app_assoc.
      * reflexivity.
    + apply Nat.ltb_ge in Hlt.
      rewrite (chunkThemeAt_beyond lines i) by exact Hlt.
      assert (F : forall n j, i <= j ->
                    flat_map (chunkThemeAt lines) (seq j n) = []).
      { induction n as [|n IHn]; intros j Hj; cbn [seq flat_map];
          [reflexivity|].
        rewrite chunkThemeAt_beyond, IHn; [reflexivity | lia |].
        fold size. nia. }
      rewrite F by lia. now rewrite app_nil_r.
Qed.

(** The structure of [mockAnalysis]: the bucket themes, or else the chunk
    themes, cut after the fifth. *)
Lemma mockAnalysis_branches (lines : list jsstring) :
  mockAnalysis lines = firstn 5 (bucketBranch lines ++ chunkBranch lines).
Proof.
  unfold mockAnalysis. rewrite !pushBucket_app, slice_0.
  match goal with
  | |- firstn 5 (if length ?b =? 0 then _ else _) = _ =>
      assert (E : b = bucketBranch lines)
  end.
  { unfold bucketBranch. rewrite map_filter_flat_map. unfold buckets.
    cbn [flat_map]. rewrite app_nil_r, <- !app_assoc. reflexivity. }
  rewrite E. unfold chunkBranch.
  destruct (bucketBranch lines) as [|t0 b0].
  - cbn [length Nat.eqb app].
    rewrite (chunkLoop_from lines 3 0 []) by reflexivity. reflexivity.
  - cbn [length Nat.eqb]. now rewrite app_nil_r.
Qed.

(** The three chunks are a partition of the lines. *)
Lemma chunks_partition (lines : list jsstring) :
  chunkAt lines 0 ++ chunkAt lines 1 ++ chunkAt lines 2 = lines.
Proof.
  unfold chunkAt. set (size := ceilDiv3 (length lines)).
  pose proof (ceilDiv3_bounds (length lines)) as B. fold size in B.
  cbn [Nat.mul]. rewrite !Nat.add_0_r. cbn [skipn].
  rewrite <- (skipn_skipn size size lines).
  rewrite (firstn_all2 (n:=size) (skipn size (skipn size lines)))
    by (rewrite !length_skipn; lia).
  now rewrite !firstn_skipn.
Qed.

Lemma chunkBranch_nonempty (lines : list jsstring) :
  lines <> [] -> bucketBranch lines = [] -> chunkBranch lines <> [].
Proof.
  intros Hne Hb. unfold chunkBranch. rewrite Hb.
  cbn [flat_map]. unfold chunkThemeAt at 1.
  assert (H : (0 <? length (chunkAt lines 0)) = true).
  { apply Nat.ltb_lt. unfold chunkAt. cbn [Nat.mul skipn].
    rewrite length_firstn.
    pose proof (ceilDiv3_bounds (length lines)).
    destruct lines; [congruence | simpl length in *; lia]. }
  rewrite H. discriminate.
Qed.

Lemma firstn_nonempty {A} (n : nat) (l : list A) :
  0 < n -> l <> [] -> firstn n l <> [].
Proof.
  destruct n; [lia|]. destruct l; [congruence|]. discriminate.
Qed.

(** On a non-empty input the classifier returns a theme. *)
Lemma mockAnalysis_nonempty (lines : list jsstring) :
  lines <> [] -> mockAnalysis lines <> [].
Proof.
  intros Hne. rewrite mockAnalysis_branches.
  apply firstn_nonempty; [lia|].
  destruct (bucketBranch lines) eqn:Hb; [|discriminate].
  cbn [app]. now apply chunkBranch_nonempty.
Qed.

(** C1, as the code has it.  A line matches a bucket exactly when its
    lower-cased text contains one of the keywords; the bucket branch has, in
    bucket order, a theme for each bucket with at least two matching lines,
    with the canned title and the first three matching lines in input order
    as quotes; the chunk branch is taken exactly when no bucket qualified and
    then has, for each non-empty one of the three contiguous chunks of size
    [ceil(n / 3)] that partition the lines, a theme titled Theme 1, 2 or 3
    with the first three lines of the chunk as quotes; the result is the
    themes of the two branches cut after the fifth; at most one branch has
    themes, and on a non-empty input exactly one has.  The two crash lines
    give exactly the performance theme with both lines as quotes. *)
Theorem mockAnalysis_spec (lines : list jsstring) :
  (forall b line, mentions (keywords b) line = true <-> Matches b line)
  /\ mockAnalysis lines = firstn 5 (bucketBranch lines ++ chunkBranch lines)
  /\ length (mockAnalysis lines) <= 5
  /\ bucketBranch lines
     = map (bucketTheme lines)
           (filter (fun b => 2 <=? length (filter (mentions (keywords b)) lines))
                   buckets)
  /\ (forall b, title (bucketTheme lines b) = str (bucketTitle b)
                /\ quotes (bucketTheme lines b)
                   = firstn 3 (filter (mentions (keywords b)) lines))
  /\ (bucketBranch lines <> [] -> chunkBranch lines = [])
  /\ (bucketBranch lines = [] ->
      chunkBranch lines = flat_map (chunkThemeAt lines) [0; 1; 2])
  /\ (forall i,
        chunkAt lines i
        = firstn (ceilDiv3 (length lines))
                 (skipn (i * ceilDiv3 (length lines)) lines)
        /\ (chunkAt lines i = [] -> chunkThemeAt lines i = [])
        /\ (chunkAt lines i <> [] ->
            exists t, chunkThemeAt lines i = [t]
                      /\ title t = str "Theme " ++ ofNat (i + 1)
                      /\ quotes t = firstn 3 (chunkAt lines i)))
  /\ length lines <= 3 * ceilDiv3 (length lines) < length lines + 3
  /\ chunkAt lines 0 ++ chunkAt lines 1 ++ chunkAt lines 2 = lines
  /\ (lines <> [] ->
      (bucketBranch lines <> [] /\ chunkBranch lines = [])
      \/ (bucketBranch lines = [] /\ chunkBranch lines <> []))
  /\ mockAnalysis crashLines
     = [mkTheme (str "Performance and Stability Concerns")
                (str "Users report slow loading times and reliability issues.")
                crashLines None None].
Proof.
  split; [apply mentions_Matches|].
  split; [apply mockAnalysis_branches|].
  split; [rewrite mockAnalysis_branches; apply firstn_le_length|].
  split; [reflexivity|].
  split; [intros b; split; reflexivity|].
  assert (H1 : bucketBranch lines <> [] -> chunkBranch lines = []).
  { unfold chunkBranch. destruct (bucketBranch lines); [congruence|].
    reflexivity. }
  assert (H2 : bucketBranch lines = [] ->
               chunkBranch lines = flat_map (chunkThemeAt lines) [0; 1; 2]).
  { unfold chunkBranch. intros ->. reflexivity. }
  split; [exact H1|]. split; [exact H2|].
  split.
  { intros i. split; [reflexivity|]. unfold chunkThemeAt. split.
    - intros ->. reflexivity.
    - intros Hc. destruct (chunkAt lines i) as [|l c]; [congruence|].
      cbn [length Nat.ltb Nat.leb].
      eexists; split; [reflexivity|]. split; [reflexivity|].
      unfold chunkTheme. cbn [quotes]. apply slice_0. }
  split; [apply ceilDiv3_bounds|].
  split; [apply chunks_partition|].
  split; [|vm_compute; reflexivity].
  intros Hne. destruct (bucketBranch lines) eqn:Hb.
  - right. split; [reflexivity|].
    apply chunkBranch_nonempty; assumption.
  - left. split; [discriminate|]. apply H1. discriminate.
Qed.

(** The theorem at the two crash lines: only the performance bucket
    qualifies and the chunk branch is not taken. *)
Lemma mockAnalysis_spec_witness :
  bucketBranch crashLines <> [] /\ chunkBranch crashLines = []
  /\ length (mockAnalysis crashLines) = 1.
Proof.
  destruct (mockAnalysis_spec crashLines)
    as [_ [_ [_ [_ [_ [H1 [_ [_ [_ [_ [H2 H3]]]]]]]]]]].
  destruct H2 as [[Hb Hc] | [Hb _]].
  - discriminate.
  - split; [exact Hb|]. split; [exact Hc|]. rewrite H3. reflexivity.
  - vm_compute in Hb. discriminate.
Defined.

(** C1 as stated fails on the empty list of lines: no bucket qualifies, the
    chunk size is 0 and the loop emits nothing, so neither branch has a
    theme. *)
Lemma mockAnalysis_empty_input :
  bucketBranch [] = [] /\ chunkBranch [] = [] /\ mockAnalysis [] = [].
Proof. repeat split; vm_compute; reflexivity. Qed.

End MockFacts.

(** ** The theme extractor *)

Module AnalyzeFacts.
Import JS Csv Feedback JSFacts MockFacts.

Lemma lines_nonempty (text : jsstring) :
  3 <= length (nonEmptyLines text) -> nonEmptyLines text <> [].
Proof. destruct (nonEmptyLines text); simpl; [lia | discriminate]. Qed.

(** Every failing outcome of the remote call ends in the fallback. *)
Lemma tryRemote_fails (JSON_parse : jsstring -> option (list Theme))
    (lines : list jsstring) (remote : Fetch) :
  RemoteFails JSON_parse remote ->
  match tryRemote JSON_parse lines remote with
  | Some themes => themes = mockAnalysis lines
  | None => True
  end.
Proof.
  intros H; destruct H; cbn [tryRemote negb]; try exact I; try reflexivity.
  - rewrite H; reflexivity.
  - rewrite H, H0; exact I.
Qed.

(** Every other outcome is a decoded array literal. *)
Lemma tryRemote_succeeds (JSON_parse : jsstring -> option (list Theme))
    (lines : list jsstring) (remote : Fetch) :
  ~ RemoteFails JSON_parse remote ->
  exists content jsonMatch themes,
    remote = FetchResponse true (BodyData (ContentText content))
    /\ matchArray content = Some jsonMatch
    /\ JSON_parse jsonMatch = Some themes
    /\ tryRemote JSON_parse lines remote = Some themes.
Proof.
  intros H.
  destruct remote as [|[|] [|[| |content]]];
    try solve [exfalso; apply H; constructor].
  destruct (matchArray content) as [jsonMatch|] eqn:Hm.
  - destruct (JSON_parse jsonMatch) as [themes|] eqn:Hp.
    + exists content, jsonMatch, themes. cbn [tryRemote negb].
      rewrite Hm, Hp. auto.
    + exfalso; apply H. eapply ArrayNotJson; eassumption.
  - exfalso; apply H. now apply NoArrayLiteral.
Qed.

(** C2.  On an input with at least three non-empty lines, every failing
    outcome of the remote call (network error, non-success status, an
    exception on the way to the text, no array literal, an array literal
    that does not parse) makes [analyzeFeedback] return the themes of the
    fallback classifier, which are not empty; all failing outcomes give the
    same result; no outcome at all makes it throw; and an outcome that is
    not a failure is a parsed array literal, returned as it is. *)
Theorem analyzeFeedback_fallback
    (JSON_parse : jsstring -> option (list Theme))
    (text : jsstring) (remote : Fetch) :
  3 <= length (nonEmptyLines text) ->
  (RemoteFails JSON_parse remote ->
   analyzeFeedback JSON_parse text remote
   = Returns (mockAnalysis (nonEmptyLines text)))
  /\ mockAnalysis (nonEmptyLines text) <> []
  /\ (forall other,
        RemoteFails JSON_parse remote -> RemoteFails JSON_parse other ->
        analyzeFeedback JSON_parse text remote
        = analyzeFeedback JSON_parse text other)
  /\ (exists themes, analyzeFeedback JSON_parse text remote = Returns themes)
  /\ (~ RemoteFails JSON_parse remote ->
      exists content jsonMatch themes,
        remote = FetchResponse true (BodyData (ContentText content))
        /\ matchArray content = Some jsonMatch
        /\ JSON_parse jsonMatch = Some themes
        /\ analyzeFeedback JSON_parse text remote = Returns themes).
Proof.
  intros H3.
  assert (Hlt : (length (nonEmptyLines text) <? 3) = false)
    by (apply Nat.ltb_ge; exact H3).
  assert (Hf : forall r, RemoteFails JSON_parse r ->
                 analyzeFeedback JSON_parse text r
                 = Returns (mockAnalysis (nonEmptyLines text))).
  { intros r Hr. unfold analyzeFeedback. rewrite Hlt.
    pose proof (tryRemote_fails JSON_parse (nonEmptyLines text) r Hr) as T.
    destruct (tryRemote JSON_parse (nonEmptyLines text) r);
      [rewrite T|]; reflexivity. }
  split; [apply Hf|].
  split; [apply mockAnalysis_nonempty, lines_nonempty, H3|].
  split; [intros other H1 H2; rewrite (Hf _ H1), (Hf _ H2); reflexivity|].
  split.
  - unfold analyzeFeedback. rewrite Hlt.
    destruct (tryRemote JSON_parse (nonEmptyLines text) remote); eauto.
  - intros Hn.
    destruct (tryRemote_succeeds JSON_parse (nonEmptyLines text) remote Hn)
      as [content [jsonMatch [themes [E1 [E2 [E3 E4]]]]]].
    exists content, jsonMatch, themes.
    repeat (split; [assumption|]).
    unfold analyzeFeedback. rewrite Hlt, E4. reflexivity.
Qed.

(** The theorem at three plain lines and a response whose text has no
    array literal. *)
Lemma analyzeFeedback_fallback_witness :
  analyzeFeedback (fun _ => None) plainText
    (FetchResponse true (BodyData (ContentText (str "overloaded"))))
  = Returns (mockAnalysis plainLines)
  /\ analyzeFeedback (fun _ => None) plainText FetchRejects
     = Returns (mockAnalysis plainLines).
Proof.
  assert (H3 : 3 <= length (nonEmptyLines plainText))
    by (vm_compute; lia).
  split.
  - destruct (analyzeFeedback_fallback (fun _ => None) plainText
                (FetchResponse true (BodyData (ContentText (str "overloaded"))))
                H3) as [H _].
    apply H. apply NoArrayLiteral. reflexivity.
  - destruct (analyzeFeedback_fallback (fun _ => None) plainText
                FetchRejects H3) as [H _].
    apply H. constructor.
Defined.

(** C5.  When the text has fewer than three lines that are non-empty after
    trimming, [analyzeFeedback] throws its not-enough-lines error, whatever
    the remote call would do, and so yields no themes; with three or more
    it does not throw. *)
Theorem analyzeFeedback_insufficient
    (JSON_parse : jsstring -> option (list Theme))
    (text : jsstring) (remote : Fetch) :
  nonEmptyLines text
  = filter (fun line => 0 <? length line) (map trim (splitLF text))
  /\ (length (nonEmptyLines text) < 3 ->
      analyzeFeedback JSON_parse text remote
      = Throws (str "Not enough feedback lines"))
  /\ (3 <= length (nonEmptyLines text) ->
      exists themes, analyzeFeedback JSON_parse text remote = Returns themes).
Proof.
  split; [reflexivity|]. split; intros H; unfold analyzeFeedback.
  - apply Nat.ltb_lt in H. rewrite H. reflexivity.
  - apply Nat.ltb_ge in H. rewrite H.
    destruct (tryRemote JSON_parse (nonEmptyLines text) remote); eauto.
Qed.

(** The theorem at a text of two lines and a blank one, and at the three
    plain lines. *)
Lemma analyzeFeedback_insufficient_witness :
  analyzeFeedback (fun _ => None) (str "first" ++ [newline] ++ str "  "
                                   ++ [newline] ++ str "second")
    FetchRejects
  = Throws (str "Not enough feedback lines")
  /\ exists themes,
       analyzeFeedback (fun _ => None) plainText FetchRejects = Returns themes.
Proof.
  split.
  - destruct (analyzeFeedback_insufficient (fun _ => None)
                (str "first" ++ [newline] ++ str "  " ++ [newline]
                 ++ str "second") FetchRejects) as [_ [H _]].
    apply H. vm_compute. lia.
  - destruct (analyzeFeedback_insufficient (fun _ => None) plainText
                FetchRejects) as [_ [_ H]].
    apply H. vm_compute. lia.
Defined.

Lemma fallback_theme_quotes (lines : list jsstring) (t : Theme) :
  In t (mockAnalysis lines) ->
  1 <= length (quotes t) <= 3
  /\ (forall quote, In quote (quotes t) -> In quote lines)
  /\ (bucketBranch lines <> [] -> 2 <= length (quotes t)).
Proof.
  intros Hin.
  rewrite mockAnalysis_branches in Hin. apply In_firstn in Hin.
  apply in_app_or in Hin as [Hb | Hc].
  - unfold bucketBranch in Hb. apply in_map_iff in Hb as [b [<- Hb]].
    apply filter_In in Hb as [_ H2]. apply Nat.leb_le in H2.
    unfold bucketTheme, theme. cbn [quotes]. rewrite length_firstn.
    split; [lia|]. split; [|lia].
    intros quote Hq. apply In_firstn in Hq.
    unfold matching in Hq. apply filter_In in Hq. tauto.
  - unfold chunkBranch in Hc.
    destruct (bucketBranch lines) eqn:Hbb; [|destruct Hc].
    apply in_flat_map in Hc as [i [_ Hi]]. unfold chunkThemeAt in Hi.
    destruct (0 <? length (chunkAt lines i)) eqn:Hl; [|destruct Hi].
    apply Nat.ltb_lt in Hl. destruct Hi as [<-|[]].
    unfold chunkTheme. cbn [quotes]. rewrite slice_0, length_firstn.
    split; [lia|]. split; [|congruence].
    intros quote Hq. apply In_firstn in Hq. unfold chunkAt in Hq.
    apply In_firstn, In_skipn in Hq. exact Hq.
Qed.

(** C9, as the code has it.  Every theme of the fallback classifier has
    between one and three quotes, each of them one of the input lines, and
    the themes of the bucket branch have at least two; so has every theme
    of an analysis run whose remote call fails, over the trimmed non-empty
    lines of its text. *)
Theorem fallback_quotes :
  (forall lines t,
     In t (mockAnalysis lines) ->
     1 <= length (quotes t) <= 3
     /\ (forall quote, In quote (quotes t) -> In quote lines)
     /\ (bucketBranch lines <> [] -> 2 <= length (quotes t)))
  /\ (forall JSON_parse text remote themes t,
        RemoteFails JSON_parse remote ->
        analyzeFeedback JSON_parse text remote = Returns themes ->
        In t themes ->
        1 <= length (quotes t) <= 3
        /\ (forall quote, In quote (quotes t) ->
                          In quote (nonEmptyLines text))).
Proof.
  split; [exact fallback_theme_quotes|].
  intros JSON_parse text remote themes t Hr Ha Hin.
  unfold analyzeFeedback in Ha.
  destruct (length (nonEmptyLines text) <? 3); [discriminate|].
  pose proof (tryRemote_fails JSON_parse (nonEmptyLines text) remote Hr) as T.
  destruct (tryRemote JSON_parse (nonEmptyLines text) remote) as [th|];
    inversion Ha; subst;
    destruct (fallback_theme_quotes (nonEmptyLines text) t Hin) as [H1 [H2 _]];
    auto.
Qed.

(** The theorem at the three plain lines, with the remote call rejected. *)
Lemma fallback_quotes_witness :
  1 <= length (quotes (chunkTheme 0 [str "aaa"])) <= 3
  /\ In (str "aaa") (nonEmptyLines plainText).
Proof.
  destruct fallback_quotes as [_ H].
  destruct (H (fun _ => None) plainText FetchRejects
              (mockAnalysis plainLines) (chunkTheme 0 [str "aaa"]))
    as [H1 H2].
  - constructor.
  - vm_compute. reflexivity.
  - vm_compute. left; reflexivity.
  - split; [exact H1|]. apply H2. vm_compute. left; reflexivity.
Defined.

(** C9 as stated fails.  On the three plain lines the remote call fails, no
    bucket qualifies, and each of the three themes of the chunk branch has a
    single quote; and a theme decoded from the remote response is returned
    with whatever quotes it has, here none. *)
Lemma quotes_fewer_than_two :
  analyzeFeedback (fun _ => None) plainText FetchRejects
  = Returns (mockAnalysis plainLines)
  /\ map (fun t => length (quotes t)) (mockAnalysis plainLines) = [1; 1; 1]
  /\ analyzeFeedback parseQuoteless plainText
       (FetchResponse true (BodyData (ContentText quotelessLiteral)))
     = Returns [quotelessTheme]
  /\ length (quotes quotelessTheme) = 0.
Proof. repeat split; vm_compute; reflexivity. Qed.

End AnalyzeFacts.

(** ** The impact and effort tagger *)

Module TaggerFacts.
Import JS Csv Feedback JSFacts.

(** [Occurs words text]: one of the words is a substring of the text. *)
Lemma anyWord_true_iff (words : list jsstring) (text : jsstring) :
  anyWord words text = true <-> exists w, In w words /\ Substring w text.
Proof.
  unfold anyWord, some. rewrite existsb_exists.
  split; intros [w [Hw H]]; exists w; (split; [exact Hw|]);
    now apply includes_true_iff.
Qed.

Lemma anyWord_false_iff (words : list jsstring) (text : jsstring) :
  anyWord words text = false <-> ~ exists w, In w words /\ Substring w text.
Proof.
  rewrite <- anyWord_true_iff. destruct (anyWord words text);
    split; congruence.
Qed.

Lemma ladder_spec (high low med : list jsstring) (text : jsstring) :
  let occurs words := exists w, In w words /\ Substring w text in
  (ladder high low med text = High <-> occurs high)
  /\ (ladder high low med text = Low <-> ~ occurs high /\ occurs low)
  /\ (ladder high low med text = Med <-> ~ occurs high /\ ~ occurs low).
Proof.
  cbv zeta. unfold ladder.
  rewrite <- !anyWord_false_iff, <- !anyWord_true_iff.
  destruct (anyWord high text), (anyWord low text), (anyWord med text);
    repeat split; intros; try congruence; try tauto;
    match goal with H : _ /\ _ |- _ => destruct H; congruence end.
Qed.

(** C6.  Over the lower-cased title, a space and the summary: the impact is
    High exactly when a high-impact word occurs, Low exactly when none
    occurs and a low-impact word does, and Med otherwise, whether or not a
    med-impact word occurs; the effort is decided in the same order over the
    effort words.  A theme with the summary of the example has impact High
    whatever its title. *)
Theorem guessImpactEffort_spec (t : Theme) :
  let text := toLowerCase (title t ++ str " " ++ summary t) in
  let occurs words := exists w, In w words /\ Substring w text in
  let impact := fst (guessImpactEffort t) in
  let effort := snd (guessImpactEffort t) in
  (impact = High <-> occurs highImpactWords)
  /\ (impact = Low <-> ~ occurs highImpactWords /\ occurs lowImpactWords)
  /\ (impact = Med <-> ~ occurs highImpactWords /\ ~ occurs lowImpactWords)
  /\ (effort = High <-> occurs highEffortWords)
  /\ (effort = Low <-> ~ occurs highEffortWords /\ occurs lowEffortWords)
  /\ (effort = Med <-> ~ occurs highEffortWords /\ ~ occurs lowEffortWords)
  /\ (summary t = criticalSummary -> impact = High).
Proof.
  cbv zeta. unfold guessImpactEffort. cbn [fst snd].
  pose proof (ladder_spec highImpactWords lowImpactWords medImpactWords
                (toLowerCase (title t ++ str " " ++ summary t))) as HI.
  pose proof (ladder_spec highEffortWords lowEffortWords medEffortWords
                (toLowerCase (title t ++ str " " ++ summary t))) as HE.
  cbv zeta in HI, HE.
  destruct HI as [I1 [I2 I3]]. destruct HE as [E1 [E2 E3]].
  repeat (split; [assumption|]).
  intros Hs. apply I1. exists (str "critical"). split.
  - unfold highImpactWords. cbn [map In]. do 4 right. left. reflexivity.
  - rewrite Hs. unfold toLowerCase. rewrite !map_app.
    apply Substring_app_r, Substring_app_r.
    apply includes_true_iff. vm_compute. reflexivity.
Qed.

(** The theorem at a theme with the summary of the example. *)
Lemma guessImpactEffort_spec_witness :
  fst (guessImpactEffort
         (mkTheme (str "Nice to have") criticalSummary [] None None))
  = High.
Proof.
  destruct (guessImpactEffort_spec
              (mkTheme (str "Nice to have") criticalSummary [] None None))
    as [_ [_ [_ [_ [_ [_ H]]]]]].
  apply H. reflexivity.
Defined.

End TaggerFacts.

(** ** The column selector *)

Module ColumnFacts.
Import JS Csv.

(** *** Signs through the binary64 specification *)

Lemma iter_pos_invariant {A} (P : A -> Prop) (f : A -> A) :
  (forall x, P x -> P (f x)) -> forall p x, P x -> P (iter_pos f p x).
Proof.
  intros Hf. induction p as [p IH|p IH|]; intros x Hx; simpl; auto.
Qed.

Lemma shr_1_nonneg mrs : (0 <= shr_m mrs)%Z -> (0 <= shr_m (shr_1 mrs))%Z.
Proof.
  destruct mrs as [m r s]. simpl.
  destruct m as [|[p|p|]|p]; simpl; lia.
Qed.

Lemma shr_nonneg mrs e n :
  (0 <= shr_m mrs)%Z -> (0 <= shr_m (fst (shr mrs e n)))%Z.
Proof.
  intros H. unfold shr. destruct n; simpl; auto.
  apply (iter_pos_invariant (fun x => (0 <= shr_m x)%Z)); auto using shr_1_nonneg.
Qed.

Lemma shr_fexp_nonneg prec emax m e l :
  (0 <= m)%Z -> (0 <= shr_m (fst (shr_fexp prec emax m e l)))%Z.
Proof.
  intros H. unfold shr_fexp. apply shr_nonneg.
  destruct l as [|[| |]]; simpl; exact H.
Qed.

Lemma round_nearest_even_nonneg m l :
  (0 <= m)%Z -> (0 <= round_nearest_even m l)%Z.
Proof.
  intros H. unfold round_nearest_even.
  destruct l as [|[| |]]; try destruct (Z.even m); lia.
Qed.

Lemma binary_round_aux_Signed prec emax sx mx ex lx :
  (0 <= mx)%Z -> Signed sx (binary_round_aux prec emax sx mx ex lx).
Proof.
  intros H. unfold binary_round_aux.
  pose proof (shr_fexp_nonneg prec emax mx ex lx H) as H1.
  destruct (shr_fexp prec emax mx ex lx) as [mrs' e']. simpl fst in H1.
  pose proof (shr_fexp_nonneg prec emax _ e' loc_Exact
                (round_nearest_even_nonneg _ (loc_of_shr_record mrs') H1)) as H2.
  destruct (shr_fexp prec emax _ e' loc_Exact) as [mrs'' e'']. simpl fst in H2.
  destruct (shr_m mrs'') as [|m|m]; simpl.
  - reflexivity.
  - destruct (Z.leb e'' (emax - prec)); reflexivity.
  - lia.
Qed.

Lemma binary_normalize_Signed prec emax m e :
  (0 <= m)%Z -> Signed false (binary_normalize prec emax m e false).
Proof.
  intros H. destruct m as [|m|m]; simpl; [reflexivity| |lia].
  unfold binary_round.
  destruct (shl_align _ _ _) as [mz ez].
  apply binary_round_aux_Signed. lia.
Qed.

Lemma SFmul_Signed prec emax x m e :
  Signed false x -> Signed false (SFmul prec emax x (S754_finite false m e)).
Proof.
  destruct x as [s|s| |s mx ex]; simpl; intros H; subst; try reflexivity;
    try contradiction.
  apply binary_round_aux_Signed. lia.
Qed.

Lemma SFdiv_Signed prec emax x m e :
  Signed false x -> Signed false (SFdiv prec emax x (S754_finite false m e)).
Proof.
  destruct x as [s|s| |s mx ex]; simpl; intros H; subst; try reflexivity;
    try contradiction.
  unfold SFdiv_core_binary.
  match goal with |- context [Z.div_eucl ?a ?b] =>
    pose proof (Z.div_pos a b) as Hq;
    unfold Z.div in Hq; destruct (Z.div_eucl a b) as [q r] end.
  apply binary_round_aux_Signed. apply Hq; [|lia].
  match goal with |- context [match ?s with Z0 => _ | Zpos _ => _ | Zneg _ => _ end] =>
    destruct s end; try lia.
  apply Z.shiftl_nonneg. lia.
Qed.

Lemma SFadd_Signed prec emax x y :
  Signed false x -> Signed false y -> Signed false (SFadd prec emax x y).
Proof.
  destruct x as [s|s| |s mx ex], y as [t|t| |t my ey]; simpl;
    intros H1 H2; subst; try reflexivity; try contradiction.
  apply binary_normalize_Signed. simpl. lia.
Qed.

(** *** The order of the non-negative numbers *)

Ltac order_cases :=
  repeat match goal with
  | H : context [Pos.compare_cont Eq ?a ?b] |- _ =>
      change (Pos.compare_cont Eq a b) with (Pos.compare a b) in H
  | |- context [Pos.compare_cont Eq ?a ?b] =>
      change (Pos.compare_cont Eq a b) with (Pos.compare a b)
  end;
  repeat match goal with
  | H : context [Z.compare ?a ?b] |- _ => destruct (Z.compare_spec a b)
  | |- context [Z.compare ?a ?b] => destruct (Z.compare_spec a b)
  | H : context [Pos.compare ?a ?b] |- _ => destruct (Pos.compare_spec a b)
  | |- context [Pos.compare ?a ?b] => destruct (Pos.compare_spec a b)
  end;
  subst; try discriminate; try reflexivity; try lia.

Lemma SFeqb_refl x : Signed false x -> SFeqb x x = true.
Proof.
  destruct x as [s|s| |s m e]; simpl; intros H; subst; try reflexivity;
    try contradiction.
  unfold SFeqb; simpl. rewrite Z.compare_refl.
  change (Pos.compare_cont Eq m m) with (Pos.compare m m).
  now rewrite Pos.compare_refl.
Qed.

Lemma SFleb_total x y :
  Signed false x -> Signed false y -> SFltb x y = false -> SFleb y x = true.
Proof.
  destruct x as [s|s| |s m e], y as [t|t| |t n f]; simpl;
    intros H1 H2; subst; try contradiction; unfold SFltb, SFleb; simpl;
    try reflexivity; try discriminate.
  intros H. order_cases.
Qed.

Lemma SFleb_trans x y z :
  Signed false x -> Signed false y -> Signed false z ->
  SFleb x y = true -> SFleb y z = true -> SFleb x z = true.
Proof.
  destruct x as [s|s| |s m e], y as [t|t| |t n f], z as [u|u| |u o g]; simpl;
    intros H1 H2 H3; subst; try contradiction; unfold SFleb; simpl;
    try reflexivity; try discriminate.
  intros Ha Hb. order_cases.
Qed.

Lemma SFltb_leb x y : SFltb x y = true -> SFleb x y = true.
Proof.
  unfold SFltb, SFleb. destruct (SFcompare x y) as [[| |]|]; congruence.
Qed.

Lemma SFeqb_leb x y : SFeqb x y = true -> SFleb x y = true.
Proof.
  unfold SFeqb, SFleb. destruct (SFcompare x y) as [[| |]|]; congruence.
Qed.

Lemma SFeqb_sym x y :
  Signed false x -> Signed false y -> SFeqb x y = true -> SFeqb y x = true.
Proof.
  destruct x as [s|s| |s m e], y as [t|t| |t n f]; simpl;
    intros H1 H2; subst; try contradiction; unfold SFeqb; simpl;
    try reflexivity; try discriminate.
  intros H. order_cases.
Qed.

Lemma SFltb_of_leb x y :
  SFleb x y = true -> SFeqb x y = false -> SFltb x y = true.
Proof.
  unfold SFltb, SFleb, SFeqb. destruct (SFcompare x y) as [[| |]|]; congruence.
Qed.

Lemma SFltb_leb_trans x y z :
  Signed false x -> Signed false y -> Signed false z ->
  SFltb x y = true -> SFleb y z = true -> SFltb x z = true.
Proof.
  destruct x as [s|s| |s m e], y as [t|t| |t n f], z as [u|u| |u o g]; simpl;
    intros H1 H2 H3; subst; try contradiction; unfold SFleb, SFltb; simpl;
    try reflexivity; try discriminate.
  intros Ha Hb. order_cases.
Qed.

(** *** [Math.max] and [indexOf] on non-negative numbers *)

Lemma NonNeg_not_nan x : NonNeg x -> PrimFloat.is_nan x = false.
Proof.
  intros H. unfold PrimFloat.is_nan. rewrite FloatAxioms.eqb_spec, SFeqb_refl; auto.
Qed.

Lemma NonNeg_not_negzero x : NonNeg x -> isNegZero x = false.
Proof.
  unfold NonNeg, isNegZero. rewrite FloatAxioms.classify_spec.
  destruct (Prim2SF x) as [s|s| |s m e]; cbn [Signed]; intros H; subst;
    try contradiction; try reflexivity.
  unfold SF64classify, SFclassify.
  destruct (Z.eqb (Zpos (digits2_pos m)) prec); reflexivity.
Qed.

Lemma leb_refl x : NonNeg x -> (x <=? x)%float = true.
Proof.
  intros H. rewrite FloatAxioms.leb_spec. apply SFeqb_leb, SFeqb_refl, H.
Qed.

Lemma maxFrom_NonNeg (numbers : list float) :
  forall highest,
    NonNeg highest -> Forall NonNeg numbers ->
    let m := maxFrom highest numbers in
    NonNeg m /\ In m (highest :: numbers)
    /\ (highest <=? m)%float = true
    /\ (forall x, In x numbers -> (x <=? m)%float = true).
Proof.
  induction numbers as [|number rest IH]; intros highest Hh Hall;
    cbn [maxFrom].
  - cbv zeta. split; [exact Hh|]. split; [now left|].
    split; [now apply leb_refl|]. intros x [].
  - inversion Hall as [|? ? Hn Hrest]; subst.
    rewrite (NonNeg_not_nan _ Hn), (NonNeg_not_negzero _ Hh), andb_false_r.
    destruct (highest <? number)%float eqn:Hlt.
    + destruct (IH number Hn Hrest) as [M1 [M2 [M3 M4]]].
      split; [exact M1|]. split; [right; exact M2|].
      split.
      * rewrite FloatAxioms.leb_spec in *. rewrite FloatAxioms.ltb_spec in Hlt.
        apply (SFleb_trans _ (Prim2SF number)); auto.
        now apply SFltb_leb.
      * intros x [<-|Hx]; [exact M3 | now apply M4].
    + destruct (IH highest Hh Hrest) as [M1 [M2 [M3 M4]]].
      split; [exact M1|].
      split; [destruct M2 as [M2|M2]; [now left | right; now right]|].
      split; [exact M3|].
      intros x [<-|Hx]; [|now apply M4].
      rewrite FloatAxioms.leb_spec in *. rewrite FloatAxioms.ltb_spec in Hlt.
      apply (SFleb_trans _ (Prim2SF highest)); auto.
      now apply SFleb_total.
Qed.

Lemma Math_max_NonNeg (numbers : list float) :
  numbers <> [] -> Forall NonNeg numbers ->
  NonNeg (Math_max numbers) /\ In (Math_max numbers) numbers
  /\ (forall x, In x numbers -> (x <=? Math_max numbers)%float = true).
Proof.
  destruct numbers as [|number rest]; [congruence|]. intros _ Hall.
  inversion Hall as [|? ? Hn Hrest]; subst.
  unfold Math_max. cbn [maxFrom].
  rewrite (NonNeg_not_nan _ Hn).
  replace (isNegZero PrimFloat.neg_infinity) with false by reflexivity.
  rewrite andb_false_r.
  assert (Hlt : (PrimFloat.neg_infinity <? number)%float = true).
  { rewrite FloatAxioms.ltb_spec. unfold NonNeg in Hn.
    replace (Prim2SF PrimFloat.neg_infinity) with (S754_infinity true) by reflexivity.
    destruct (Prim2SF number) as [s|s| |s m e]; simpl in Hn; subst;
      try contradiction; reflexivity. }
  rewrite Hlt.
  destruct (maxFrom_NonNeg rest number Hn Hrest) as [M1 [M2 [M3 M4]]].
  split; [exact M1|]. split; [exact M2|].
  intros x [<-|Hx]; [exact M3 | now apply M4].
Qed.

Lemma indexOfFrom_found (a : list float) (m : float) :
  NonNeg m -> In m a ->
  forall k, exists i,
    indexOfFrom a m k = (k + Z.of_nat i)%Z /\ i < length a
    /\ (nth i a m =? m)%float = true
    /\ (forall j, j < i -> (nth j a m =? m)%float = false).
Proof.
  intros Hm. induction a as [|y rest IH]; intros Hin k; [destruct Hin|].
  cbn [indexOfFrom].
  destruct (y =? m)%float eqn:E.
  - exists 0. cbn [nth length]. repeat split; try lia. exact E.
  - destruct Hin as [->|Hin].
    { rewrite FloatAxioms.eqb_spec, SFeqb_refl in E; [discriminate | exact Hm]. }
    destruct (IH Hin (k + 1)%Z) as [i [I1 [I2 [I3 I4]]]].
    exists (S i). cbn [nth length]. repeat split; try lia.
    + exact I3.
    + intros [|j] Hj; [exact E | apply I4; lia].
Qed.

(** *** The scores *)

Lemma numberOf_NonNeg (n : nat) : NonNeg (numberOf n).
Proof.
  unfold NonNeg, numberOf. rewrite FloatAxioms.of_uint63_spec.
  apply binary_normalize_Signed. apply Uint63.to_Z_bounded.
Qed.

(** The counts from 1 to 10 are finite positive numbers. *)
Lemma numberOf_small (v : nat) :
  1 <= v <= 10 -> exists m e, Prim2SF (numberOf v) = S754_finite false m e.
Proof.
  intros H.
  do 11 (destruct v as [|v];
         [try lia; try (vm_compute; eexists; eexists; reflexivity)|]).
  lia.
Qed.

Lemma average_NonNeg (total valid : nat) :
  1 <= valid <= 10 ->
  Signed false (Prim2SF (numberOf total / numberOf valid)%float).
Proof.
  intros H. destruct (numberOf_small valid H) as [m [e E]].
  rewrite FloatAxioms.div_spec, E. apply SFdiv_Signed, numberOf_NonNeg.
Qed.

Lemma weighted_NonNeg (a b : float) :
  NonNeg a -> NonNeg b -> NonNeg (a * 0.7 + b * 0.3)%float.
Proof.
  intros Ha Hb. unfold NonNeg. rewrite FloatAxioms.add_spec, !FloatAxioms.mul_spec.
  replace (Prim2SF 0.7%float)
    with (S754_finite false 6305039478318694 (-53)) by reflexivity.
  replace (Prim2SF 0.3%float)
    with (S754_finite false 5404319552844595 (-54)) by reflexivity.
  apply SFadd_Signed; apply SFmul_Signed; assumption.
Qed.

(** What the [forEach] adds to the three counters. *)
Lemma column_fold (colIndex : nat) (rows : list (list jsstring)) :
  forall st,
    fold_left (column_visit colIndex) rows st
    = mkColumnSums
        (totalLength st
         + list_sum (map (@length ascii) (flat_map (cellAt colIndex) rows)))
        (alphaCount st
         + list_sum (map alphaOf (flat_map (cellAt colIndex) rows)))
        (validCount st + length (flat_map (cellAt colIndex) rows)).
Proof.
  induction rows as [|row rows IH]; intros st; cbn [fold_left flat_map].
  - cbn [map list_sum length]. rewrite !Nat.add_0_r.
    destruct st; reflexivity.
  - rewrite IH. unfold column_visit, cellAt.
    destruct (nth_error row colIndex) as [cell|]; [|reflexivity].
    destruct (0 <? length cell); [|reflexivity].
    cbn [app map list_sum length totalLength alphaCount validCount].
    rewrite <- !Nat.add_assoc. reflexivity.
Qed.

Lemma slice_sample {A} (rows : list A) :
  slice 0 (Nat.min 10 (length rows)) rows = firstn 10 rows.
Proof.
  unfold slice. cbn [skipn]. rewrite Nat.sub_0_r.
  destruct (Nat.le_ge_cases 10 (length rows)) as [H|H].
  - now rewrite Nat.min_l.
  - rewrite Nat.min_r by exact H. now rewrite !firstn_all2.
Qed.

Lemma cellAt_length (colIndex : nat) (row : list jsstring) :
  length (cellAt colIndex row) <= 1.
Proof.
  unfold cellAt. destruct (nth_error row colIndex) as [cell|]; [|cbn; lia].
  destruct (0 <? length cell); cbn; lia.
Qed.

Lemma sampledCells_length (sampleRows : list (list jsstring)) (colIndex : nat) :
  length (sampledCells sampleRows colIndex) <= 10.
Proof.
  unfold sampledCells.
  assert (H : forall sample : list (list jsstring),
            length (flat_map (cellAt colIndex) sample) <= length sample).
  { intros sample.
    induction sample as [|row sample IH]; cbn [flat_map length]; [lia|].
    rewrite length_app. pose proof (cellAt_length colIndex row). lia. }
  eapply Nat.le_trans; [apply H|]. apply firstn_le_length.
Qed.

(** The score of a column over its sampled cells. *)
Lemma columnScore_cells (sampleRows : list (list jsstring)) (colIndex : nat) :
  let cells := sampledCells sampleRows colIndex in
  columnScore sampleRows colIndex
  = if length cells =? 0 then 0%float
    else (numberOf (list_sum (map (@length ascii) cells))
          / numberOf (length cells) * 0.7
          + numberOf (list_sum (map alphaOf cells))
            / numberOf (length cells) * 0.3)%float.
Proof.
  cbv zeta. unfold columnScore. rewrite slice_sample, column_fold.
  fold (sampledCells sampleRows colIndex).
  cbn [totalLength alphaCount validCount Nat.add]. reflexivity.
Qed.

Lemma columnScore_NonNeg (sampleRows : list (list jsstring)) (colIndex : nat) :
  NonNeg (columnScore sampleRows colIndex).
Proof.
  rewrite columnScore_cells.
  pose proof (sampledCells_length sampleRows colIndex) as L.
  destruct (length (sampledCells sampleRows colIndex) =? 0) eqn:Z.
  - reflexivity.
  - apply Nat.eqb_neq in Z.
    apply weighted_NonNeg; apply average_NonNeg; lia.
Qed.

(** C8.  The score of a column is 0 when none of its cells in the first ten
    sample rows is non-empty, and otherwise the average length of those
    non-empty cells times 0.7 plus their average count of letters times
    0.3, in binary64 arithmetic.  Without headers, or with an empty header
    list, the selector returns 0; otherwise it returns an index of a header
    whose score is at least every score and strictly above the score of
    every earlier column: the first index that attains the maximum. *)
Theorem chooseTextColumn_spec (headers : option (list jsstring))
    (sampleRows : list (list jsstring)) :
  (forall colIndex,
     let cells := sampledCells sampleRows colIndex in
     (cells = [] -> columnScore sampleRows colIndex = 0%float)
     /\ (cells <> [] ->
         columnScore sampleRows colIndex
         = (numberOf (list_sum (map (@length ascii) cells))
            / numberOf (length cells) * 0.7
            + numberOf (list_sum (map alphaOf cells))
              / numberOf (length cells) * 0.3)%float))
  /\ (headers = None \/ headers = Some [] ->
      chooseTextColumn headers sampleRows = 0%Z)
  /\ (forall hs,
        headers = Some hs -> hs <> [] ->
        exists i,
          chooseTextColumn headers sampleRows = Z.of_nat i
          /\ i < length hs
          /\ (forall j, j < length hs ->
                (columnScore sampleRows j <=? columnScore sampleRows i)%float
                = true)
          /\ (forall j, j < i ->
                (columnScore sampleRows j <? columnScore sampleRows i)%float
                = true)).
Proof.
  split; [|split].
  - intros colIndex. cbv zeta. rewrite columnScore_cells.
    destruct (sampledCells sampleRows colIndex) as [|cell cells];
      split; intros H; try congruence; reflexivity.
  - intros [-> | ->]; reflexivity.
  - intros hs -> Hne. unfold chooseTextColumn.
    destruct (length hs =? 0) eqn:Z.
    { apply Nat.eqb_eq, length_zero_iff_nil in Z. congruence. }
    set (scores := map (columnScore sampleRows) (seq 0 (length hs))).
    assert (Hall : Forall NonNeg scores).
    { apply Forall_forall. intros x Hx. unfold scores in Hx.
      apply in_map_iff in Hx as [c [<- _]]. apply columnScore_NonNeg. }
    assert (Hlen : length scores = length hs)
      by (unfold scores; now rewrite length_map, length_seq).
    assert (Hs : scores <> []).
    { intros E. rewrite E in Hlen. cbn in Hlen.
      symmetry in Hlen. apply length_zero_iff_nil in Hlen. congruence. }
    assert (Hnth : forall j, j < length hs ->
                     nth j scores (Math_max scores)
                     = columnScore sampleRows j).
    { intros j Hj. unfold scores.
      rewrite (nth_indep _ _ (columnScore sampleRows 0))
        by (now rewrite length_map, length_seq).
      rewrite map_nth, seq_nth by exact Hj. reflexivity. }
    destruct (Math_max_NonNeg scores Hs Hall) as [M1 [M2 M3]].
    destruct (indexOfFrom_found scores (Math_max scores) M1 M2 0%Z)
      as [i [I1 [I2 [I3 I4]]]].
    exists i. rewrite Hlen in I2.
    split; [exact I1|]. split; [exact I2|].
    rewrite Hnth in I3 by exact I2.
    assert (Hi : NonNeg (columnScore sampleRows i))
      by apply columnScore_NonNeg.
    rewrite FloatAxioms.eqb_spec in I3.
    split.
    + intros j Hj.
      assert (Hm : (columnScore sampleRows j <=? Math_max scores)%float = true).
      { apply M3. unfold scores. apply in_map, in_seq. lia. }
      rewrite FloatAxioms.leb_spec in *.
      apply (SFleb_trans _ (Prim2SF (Math_max scores))); auto.
      * apply columnScore_NonNeg.
      * apply SFeqb_leb, SFeqb_sym; auto.
    + intros j Hj.
      assert (Hj' : j < length hs) by lia.
      assert (Hm : (columnScore sampleRows j <=? Math_max scores)%float = true).
      { apply M3. unfold scores. apply in_map, in_seq. lia. }
      pose proof (I4 j Hj) as Hne'. rewrite Hnth in Hne' by exact Hj'.
      rewrite FloatAxioms.leb_spec in Hm.
      rewrite FloatAxioms.eqb_spec in Hne'.
      rewrite FloatAxioms.ltb_spec.
      apply (SFltb_leb_trans _ (Prim2SF (Math_max scores))); auto.
      * apply columnScore_NonNeg.
      * now apply SFltb_of_leb.
      * apply SFeqb_leb, SFeqb_sym; auto.
Qed.

(** The theorem at the sample rows: column 0, with the sentences, is
    chosen over the column of codes. *)
Lemma chooseTextColumn_spec_witness :
  chooseTextColumn (Some [str "text"; str "code"]) sampleRows2 = 0%Z
  /\ chooseTextColumn None sampleRows2 = 0%Z
  /\ columnScore sampleRows2 2 = 0%float.
Proof.
  destruct (chooseTextColumn_spec (Some [str "text"; str "code"]) sampleRows2)
    as [H1 [_ H3]].
  destruct (chooseTextColumn_spec None sampleRows2) as [_ [H2 _]].
  split; [|split].
  - destruct (H3 [str "text"; str "code"] eq_refl) as [i [E [Hi [_ Hlt]]]];
      [discriminate|].
    rewrite E. destruct i as [|i]; [reflexivity|].
    exfalso. specialize (Hlt 0 (Nat.lt_0_succ i)).
    destruct i as [|i]; [|cbn in Hi; lia].
    vm_compute in Hlt. discriminate.
  - apply H2. left; reflexivity.
  - apply (H1 2). reflexivity.
Defined.

End ColumnFacts.

(** ** More facts about the string primitives *)

Module StringFacts.
Import JS Csv JSFacts.

(** Lower-casing neither makes nor unmakes white space. *)
Lemma isWhiteSpace_lower (c : ascii) :
  isWhiteSpace (toLowerChar c) = isWhiteSpace c.
Proof. destruct c as [[] [] [] [] [] [] [] []]; reflexivity. Qed.

Lemma trimStart_lower (s : jsstring) :
  trimStart (toLowerCase s) = toLowerCase (trimStart s).
Proof.
  induction s as [|c s IH]; [reflexivity|].
  cbn [toLowerCase map trimStart]. rewrite isWhiteSpace_lower.
  destruct (isWhiteSpace c); [exact IH | reflexivity].
Qed.

(** Trimming and lower-casing commute. *)
Lemma trim_lower (s : jsstring) :
  trim (toLowerCase s) = toLowerCase (trim s).
Proof.
  unfold trim, trimEnd. rewrite trimStart_lower.
  unfold toLowerCase at 1. rewrite <- map_rev.
  fold (toLowerCase (rev (trimStart s))).
  rewrite trimStart_lower. unfold toLowerCase. now rewrite map_rev.
Qed.

(** The key of a line is empty exactly when the line is blank. *)
Lemma keyOf_nil_iff (line : jsstring) : keyOf line = [] <-> trim line = [].
Proof.
  unfold keyOf. rewrite trim_lower. unfold toLowerCase.
  destruct (trim line); split; intros H; try reflexivity; discriminate.
Qed.

Lemma In_trimStart (s : jsstring) c : In c (trimStart s) -> In c s.
Proof.
  destruct (trimStart_suffix s) as [pre [E _]]. intros H.
  rewrite E. apply in_or_app; now right.
Qed.

Lemma In_trim (s : jsstring) c : In c (trim s) -> In c s.
Proof.
  unfold trim. intros H. apply In_trimStart.
  destruct (trimEnd_prefix (trimStart s)) as [post E].
  rewrite E. apply in_or_app; now left.
Qed.

Lemma In_consHead c (pieces : list jsstring) p :
  In p (consHead c pieces) ->
  p = [c] \/ (exists h, In h pieces /\ p = c :: h) \/ In p pieces.
Proof.
  destruct pieces as [|h t]; cbn [consHead In].
  - intros [<-|[]]; now left.
  - intros [<-|H]; [right; left; exists h; auto | right; right; auto].
Qed.

(** The pieces of [split] on line feeds hold no line feed, and only
    characters of the text. *)
Lemma splitLF_pieces (s : jsstring) p :
  In p (splitLF s) -> ~ In newline p /\ (forall c, In c p -> In c s).
Proof.
  revert p. induction s as [|x s IH]; intros p; cbn [splitLF].
  - intros [<-|[]]. split; [intros [] | intros c []].
  - destruct (Ascii.eqb x newline) eqn:E.
    + intros [<-|H]; [split; [intros [] | intros c []]|].
      destruct (IH p H) as [H1 H2]. split; [exact H1|].
      intros c Hc; right; auto.
    + apply Ascii.eqb_neq in E. intros H.
      apply In_consHead in H as [->|[[h [Hh ->]]|H]].
      * split; [intros [F|[]]; congruence | intros c [<-|[]]; now left].
      * destruct (IH h Hh) as [H1 H2]. split.
        -- intros [F|F]; [congruence | auto].
        -- intros c [<-|Hc]; [now left | right; auto].
      * destruct (IH p H) as [H1 H2]. split; [exact H1|].
        intros c Hc; right; auto.
Qed.

Lemma splitCRLF_pieces (n : nat) :
  forall s p,
    length s <= n -> In p (splitCRLF s) ->
    ~ In newline p /\ (forall c, In c p -> In c s).
Proof.
  induction n as [|n IH]; intros [|x s] p Hn; cbn [splitCRLF length] in *;
    try lia.
  - intros [<-|[]]. split; [intros [] | intros c []].
  - intros [<-|[]]. split; [intros [] | intros c []].
  - assert (Keep : In p (consHead x (splitCRLF s)) ->
                   Ascii.eqb x newline = false ->
                   ~ In newline p /\ (forall c, In c p -> In c (x :: s))).
    { intros H E. apply Ascii.eqb_neq in E.
      apply In_consHead in H as [->|[[h [Hh ->]]|H]].
      - split; [intros [F|[]]; congruence | intros c [<-|[]]; now left].
      - destruct (IH s h ltac:(lia) Hh) as [H1 H2]. split.
        + intros [F|F]; [congruence | auto].
        + intros c [<-|Hc]; [now left | right; auto].
      - destruct (IH s p ltac:(lia) H) as [H1 H2]. split; [exact H1|].
        intros c Hc; right; auto. }
    destruct (Ascii.eqb x newline) eqn:E.
    + intros [<-|H]; [split; [intros [] | intros c []]|].
      destruct (IH s p ltac:(lia) H) as [H1 H2]. split; [exact H1|].
      intros c Hc; right; auto.
    + destruct s as [|c2 s2]; [intros H; now apply Keep|].
      destruct (Ascii.eqb x cr && Ascii.eqb c2 newline).
      * intros [<-|H]; [split; [intros [] | intros c []]|].
        destruct (IH s2 p ltac:(cbn [length] in Hn; lia) H) as [H1 H2].
        split; [exact H1|]. intros c Hc; right; right; auto.
      * intros H; now apply Keep.
Qed.

(** Joining line-feed-free pieces and splitting again gives the pieces. *)
Lemma splitLF_join (pieces : list jsstring) :
  pieces <> [] -> (forall p, In p pieces -> ~ In newline p) ->
  splitLF (join [newline] pieces) = pieces.
Proof.
  assert (One : forall p rest,
            ~ In newline p ->
            splitLF (p ++ newline :: rest) = p :: splitLF rest).
  { induction p as [|c p IHp]; intros rest Hp; cbn [app splitLF].
    - now rewrite Ascii.eqb_refl.
    - replace (Ascii.eqb c newline) with false
        by (symmetry; apply Ascii.eqb_neq; intros ->; apply Hp; now left).
      rewrite IHp by (intros H; apply Hp; now right). reflexivity. }
  assert (Last : forall p, ~ In newline p -> splitLF p = [p]).
  { induction p as [|c p IHp]; intros Hp; cbn [splitLF]; [reflexivity|].
    replace (Ascii.eqb c newline) with false
      by (symmetry; apply Ascii.eqb_neq; intros ->; apply Hp; now left).
    rewrite IHp by (intros H; apply Hp; now right). reflexivity. }
  induction pieces as [|p pieces IH]; intros Hne Hp; [congruence|].
  destruct pieces as [|q pieces].
  - cbn [join]. apply Last, Hp. now left.
  - change (join [newline] (p :: q :: pieces))
      with (p ++ newline :: join [newline] (q :: pieces)).
    rewrite One by (apply Hp; now left). f_equal.
    apply IH; [discriminate|]. intros r Hr; apply Hp; now right.
Qed.

End StringFacts.

(** ** Tables: tokenizer round trips, parsed tables and extraction *)

Module TableFacts.
Import JS Csv JSFacts CsvLineFacts StringFacts.

(** Inside quotes a field with its quotes doubled is read back as it was,
    up to the closing quote. *)
Lemma tokenize_doubled (delimiter s : jsstring) :
  forall rest field,
    hd_error rest <> Some dquote ->
    tokenize delimiter (doubleQuotes s ++ dquote :: rest) true field
    = tokenize delimiter rest false (field ++ s).
Proof.
  induction s as [|c s IH]; intros rest field Hr.
  - cbn [doubleQuotes flat_map app tokenize]. rewrite Ascii.eqb_refl.
    rewrite app_nil_r. destruct rest as [|c2 rest]; [reflexivity|].
    destruct (Ascii.eqb c2 dquote) eqn:E; [|reflexivity].
    apply Ascii.eqb_eq in E; subst. exfalso; apply Hr; reflexivity.
  - unfold doubleQuotes. cbn [flat_map].
    fold (doubleQuotes s).
    destruct (Ascii.eqb c dquote) eqn:E.
    + apply Ascii.eqb_eq in E; subst.
      cbn [app tokenize]. rewrite Ascii.eqb_refl. cbn [andb].
      rewrite IH by exact Hr. rewrite <- app_assoc. reflexivity.
    + cbn [app tokenize]. rewrite E. cbn [negb andb].
      rewrite IH by exact Hr. rewrite <- app_assoc. reflexivity.
Qed.

Lemma tokenize_quoted (delimiter s : jsstring) :
  forall rest field,
    hd_error rest <> Some dquote ->
    tokenize delimiter (quoted s ++ rest) false field
    = tokenize delimiter rest false (field ++ s).
Proof.
  intros rest field Hr. unfold quoted.
  rewrite <- !app_assoc. cbn [app tokenize]. rewrite Ascii.eqb_refl.
  cbn [andb negb].
  rewrite <- (tokenize_doubled delimiter s rest field Hr).
  destruct (doubleQuotes s ++ dquote :: rest); reflexivity.
Qed.

Lemma tokenize_join_quoted (d : ascii) :
  d <> dquote ->
  forall fs, fs <> [] ->
    tokenize [d] (join [d] (map quoted fs)) false [] = map trim fs.
Proof.
  intros Hd. induction fs as [|f fs IH]; intros Hf; [congruence|].
  destruct fs as [|g fs].
  - cbn [map join]. rewrite <- (app_nil_r (quoted f)).
    rewrite tokenize_quoted by discriminate. reflexivity.
  - cbn [map join]. cbn [map join] in IH.
    rewrite tokenize_quoted.
    + cbn [app tokenize].
      replace (Ascii.eqb d dquote) with false
        by (symmetry; apply Ascii.eqb_neq; exact Hd).
      rewrite streq_refl. cbn [negb andb]. f_equal.
      apply IH. discriminate.
    + cbn [app hd_error]. intros E. inversion E. congruence.
Qed.

(** X3.  A row written with every field quoted and its quotes doubled, as the
    labeled export writes its rows, is read back by the tokenizer as the
    fields, trimmed. *)
Theorem parseCSVLine_quoted_roundtrip (d : ascii) (fields : list jsstring) :
  d <> dquote -> fields <> [] ->
  parseCSVLine (join [d] (map quoted fields)) [d] = map trim fields.
Proof.
  intros Hd Hne. rewrite parseCSVLine_tokenize.
  now apply tokenize_join_quoted.
Qed.

(** The round trip at a row of the labeled export whose text holds a comma
    and a quote. *)
Lemma parseCSVLine_quoted_roundtrip_witness :
  parseCSVLine (labeledRow (str "a,b" ++ [dquote] ++ str "c") (str "Theme 1"))
               [comma]
  = [str "a,b" ++ [dquote] ++ str "c"; str "Theme 1"].
Proof.
  exact (parseCSVLine_quoted_roundtrip comma
           [str "a,b" ++ [dquote] ++ str "c"; str "Theme 1"]
           ltac:(discriminate) ltac:(discriminate)).
Defined.

Lemma splitOn_cons (d : ascii) (line : jsstring) :
  exists h t, splitOn d line = h :: t.
Proof.
  destruct line as [|c line]; cbn [splitOn]; [eauto|].
  destruct (Ascii.eqb c d); [eauto|].
  destruct (splitOn d line); cbn [consHead]; eauto.
Qed.

Lemma tokenize_unquoted (d : ascii) (line : jsstring) :
  forall field h t,
    ~ In dquote line ->
    splitOn d line = h :: t ->
    tokenize [d] line false field = map trim ((field ++ h) :: t).
Proof.
  induction line as [|c line IH]; intros field h t Hq Hs.
  - cbn [splitOn] in Hs. inversion Hs; subst.
    cbn [tokenize map]. now rewrite app_nil_r.
  - assert (Hc : Ascii.eqb c dquote = false).
    { apply Ascii.eqb_neq. intros ->. apply Hq. now left. }
    assert (Hl : ~ In dquote line) by (intros H; apply Hq; now right).
    destruct (splitOn_cons d line) as [h' [t' E']].
    cbn [tokenize]. rewrite Hc. cbn [negb andb streq].
    rewrite andb_true_r.
    cbn [splitOn] in Hs. rewrite E' in Hs.
    destruct (Ascii.eqb c d) eqn:E.
    + injection Hs as <- <-. rewrite (IH [] h' t' Hl E').
      cbn [map app]. now rewrite app_nil_r.
    + cbn [consHead] in Hs. injection Hs as <- <-.
      rewrite (IH (field ++ [c]) h' t' Hl E').
      rewrite <- app_assoc. reflexivity.
Qed.

Lemma splitOn_length (d : ascii) (line : jsstring) :
  length (splitOn d line) = 1 + countChar d line.
Proof.
  induction line as [|c line IH]; [reflexivity|].
  cbn [splitOn]. unfold countChar in *. cbn [filter].
  rewrite (Ascii.eqb_sym d c).
  destruct (Ascii.eqb c d); cbn [length].
  - rewrite IH. lia.
  - destruct (splitOn d line) as [|h t]; [discriminate IH|].
    cbn [consHead length] in *. exact IH.
Qed.

(** X4.  On a line without double quotes the tokenizer is the plain split at
    the delimiter followed by trimming. *)
Theorem parseCSVLine_unquoted (d : ascii) (line : jsstring) :
  ~ In dquote line ->
  parseCSVLine line [d] = map trim (splitOn d line)
  /\ length (parseCSVLine line [d]) = 1 + countChar d line.
Proof.
  intros Hq. destruct (splitOn_cons d line) as [h [t E]].
  assert (P : parseCSVLine line [d] = map trim (splitOn d line)).
  { rewrite parseCSVLine_tokenize, (tokenize_unquoted d line [] h t Hq E), E.
    reflexivity. }
  split; [exact P|]. rewrite P, length_map. apply splitOn_length.
Qed.

(** The theorem at a line of three unquoted fields. *)
Lemma parseCSVLine_unquoted_witness :
  parseCSVLine (str " a ; b;c") [semicolon] = [str "a"; str "b"; str "c"].
Proof.
  destruct (parseCSVLine_unquoted semicolon (str " a ; b;c")) as [H _].
  - vm_compute. intros [H|[H|[H|[H|[H|[H|[H|[H|[]]]]]]]]]; discriminate.
  - rewrite H. reflexivity.
Defined.

(** A field holds only characters of the line. *)
Lemma tokenize_chars (delimiter : jsstring) :
  forall n rest inQuotes field f,
    length rest <= n ->
    In f (tokenize delimiter rest inQuotes field) ->
    forall c, In c f -> In c rest \/ In c field.
Proof.
  induction n as [|n IH]; intros [|x rest] q field f Hn;
    cbn [tokenize length] in *; try lia.
  - intros [<-|[]] c Hc. right. now apply In_trim.
  - intros [<-|[]] c Hc. right. now apply In_trim.
  - destruct (Ascii.eqb x dquote) eqn:Ex.
    + apply Ascii.eqb_eq in Ex; subst x.
      assert (Toggle : In f (tokenize delimiter rest (negb q) field) ->
                       forall c, In c f ->
                                 In c (dquote :: rest) \/ In c field).
      { intros H c Hc.
        destruct (IH rest (negb q) field f ltac:(lia) H c Hc);
          [left; now right | now right]. }
      destruct rest as [|c2 rest2]; [exact Toggle|].
      destruct (q && Ascii.eqb c2 dquote) eqn:E; [|exact Toggle].
      intros H c Hc. cbn [length] in Hn.
      destruct (IH rest2 true (field ++ [dquote]) f ltac:(lia) H c Hc)
        as [H1|H1].
      * left; right; now right.
      * apply in_app_or in H1 as [H1|[<-|[]]]; [now right | left; now left].
    + destruct (negb q && streq [x] delimiter).
      * intros [<-|H] c Hc; [right; now apply In_trim|].
        destruct (IH rest false [] f ltac:(lia) H c Hc) as [H1|[]].
        left; now right.
      * intros H c Hc.
        destruct (IH rest q (field ++ [x]) f ltac:(lia) H c Hc) as [H1|H1].
        -- left; now right.
        -- apply in_app_or in H1 as [H1|[<-|[]]];
             [now right | left; now left].
Qed.

(** The tokenizer always emits at least one field. *)
Lemma tokenize_nonempty (delimiter : jsstring) :
  forall n rest inQuotes field,
    length rest <= n -> tokenize delimiter rest inQuotes field <> [].
Proof.
  induction n as [|n IH]; intros [|x rest] q field Hn;
    cbn [tokenize length] in *; try lia; try discriminate.
  destruct (Ascii.eqb x dquote).
  - destruct rest as [|c2 rest2]; [discriminate|].
    destruct (q && Ascii.eqb c2 dquote); apply IH; cbn [length] in *; lia.
  - destruct (negb q && streq [x] delimiter); [discriminate|].
    apply IH; lia.
Qed.

(** What holds of every row of the parsed lines of a text. *)
Lemma parsedLinesOf_rows (text : jsstring) (row : list jsstring) :
  In row (parsedLinesOf text) ->
  row <> []
  /\ forall cell, In cell row -> Trimmed cell /\ ~ In newline cell.
Proof.
  intros Hr. pose proof Hr as Hr'.
  unfold parsedLinesOf in Hr. apply in_map_iff in Hr as [line [<- Hl]].
  apply filter_In in Hl as [Hl _].
  destruct (splitCRLF_pieces (length text) text line (le_n _) Hl) as [Hn _].
  rewrite parseCSVLine_tokenize. split.
  - apply (tokenize_nonempty _ (length line)). lia.
  - intros cell Hc. split.
    + exact (tokenize_Trimmed _ (length line) line false [] cell (le_n _) Hc).
    + intros F.
      destruct (tokenize_chars _ (length line) line false [] cell (le_n _)
                  Hc newline F) as [H|[]].
      exact (Hn H).
Qed.

(** X2.  [parseCSV] rejects a text exactly when it has no non-blank line, and
    with no other error; a table it returns accounts for every non-blank
    line as its header row or a data row, has at least one data row, and
    every row of it has at least one cell, all cells trimmed and free of
    line feeds. *)
Theorem parseCSV_table (text : jsstring) :
  (parseCSV text = Throws (str "CSV file is empty") <->
   forall line, In line (splitCRLF text) -> trim line = [])
  /\ (forall message,
        parseCSV text = Throws message -> message = str "CSV file is empty")
  /\ (forall parsed,
        parseCSV text = Returns parsed ->
        allRows parsed = parsedLinesOf text
        /\ length (allRows parsed)
           = length (filter (fun line => 0 <? length (trim line))
                            (splitCRLF text))
        /\ rows parsed <> []
        /\ detectedDelimiter parsed = detectDelimiter text
        /\ forall row, In row (allRows parsed) ->
             row <> []
             /\ forall cell, In cell row ->
                  Trimmed cell /\ ~ In newline cell).
Proof.
  assert (Blank : filter (fun line => 0 <? length (trim line))
                         (splitCRLF text) = [] <->
                  forall line, In line (splitCRLF text) -> trim line = []).
  { split.
    - intros E line Hl. destruct (trim line) eqn:T; [reflexivity|].
      assert (In line (filter (fun line => 0 <? length (trim line))
                              (splitCRLF text)))
        by (apply filter_In; split; [exact Hl | now rewrite T]).
      rewrite E in H. destruct H.
    - intros H.
      destruct (filter _ (splitCRLF text)) as [|l ls] eqn:E; [reflexivity|].
      assert (Hl : In l (filter (fun line => 0 <? length (trim line))
                                (splitCRLF text)))
        by (rewrite E; now left).
      apply filter_In in Hl as [Hl Hb]. rewrite (H l Hl) in Hb.
      discriminate. }
  pose proof (parsedLinesOf_rows text) as Rows.
  unfold parseCSV, parsedLinesOf in *.
  set (lines := filter (fun line => 0 <? length (trim line))
                       (splitCRLF text)) in *.
  set (parse := fun line => parseCSVLine line
                              (delimiterText (detectDelimiter text))) in *.
  destruct lines as [|l ls] eqn:El.
  - cbn [length Nat.eqb]. split; [|split].
    + split; [intros _; now apply Blank | reflexivity].
    + intros message E; inversion E; reflexivity.
    + intros parsed E; discriminate.
  - cbn [length Nat.eqb map nth_error].
    assert (NotBlank : ~ forall line, In line (splitCRLF text) ->
                                      trim line = []).
    { intros H. apply Blank in H. discriminate. }
    destruct (every headerCell (parse l) && (1 <? S (length (map parse ls))))
      eqn:Eh.
    + split; [split; [discriminate | intros H; now destruct NotBlank]|].
      split; [intros message E; discriminate|].
      intros parsed E; inversion E; subst parsed; clear E.
      cbn [allRows headers rows skipn detectedDelimiter length map].
      split; [reflexivity|]. split; [now rewrite length_map|].
      split.
      * apply andb_true_iff in Eh as [_ Eh]. apply Nat.ltb_lt in Eh.
        destruct ls; cbn [map length] in *; [lia | discriminate].
      * split; [reflexivity | exact Rows].
    + split; [split; [discriminate | intros H; now destruct NotBlank]|].
      split; [intros message E; discriminate|].
      intros parsed E; inversion E; subst parsed; clear E.
      cbn [allRows headers rows detectedDelimiter length map].
      split; [reflexivity|]. split; [now rewrite length_map|].
      split; [discriminate|]. split; [reflexivity | exact Rows].
Qed.

(** The theorem at the sample file and at a text of blank lines. *)
Lemma parseCSV_table_witness :
  parseCSV (str "  " ++ [newline] ++ str " ")
  = Throws (str "CSV file is empty")
  /\ length (allRows (mkParsedCSV [[str "1"; str "hello"]]
                                  (Some [str "name"; str "comment"]) Comma))
     = 2.
Proof.
  split.
  - destruct (parseCSV_table (str "  " ++ [newline] ++ str " ")) as [[_ H] _].
    apply H. intros line [<-|[<-|[]]]; reflexivity.
  - destruct (parseCSV_table sampleFile) as [_ [_ H]].
    destruct (H (mkParsedCSV [[str "1"; str "hello"]]
                             (Some [str "name"; str "comment"]) Comma))
      as [_ [H2 _]]; [vm_compute; reflexivity|].
    rewrite H2. reflexivity.
Defined.

(** What the [forEach] of the extraction appends. *)
Lemma extract_fold (index : Z) (table : list (list jsstring)) :
  forall lines,
    fold_left (extract_visit index) table lines
    = lines ++ flat_map (textAt index) table.
Proof.
  induction table as [|row table IH]; intros lines; cbn [fold_left flat_map].
  - now rewrite app_nil_r.
  - rewrite IH. unfold extract_visit, textAt.
    destruct (cellOf row index) as [cell|]; [|reflexivity].
    destruct (0 <? length cell) eqn:E.
    + destruct (0 <? length (trim cell)); [|reflexivity].
      now rewrite <- app_assoc.
    + apply Nat.ltb_ge in E. destruct cell; [reflexivity|].
      cbn [length] in E. lia.
Qed.

Lemma textAt_length (index : Z) (row : list jsstring) :
  length (textAt index row) <= 1.
Proof.
  unfold textAt. destruct (cellOf row index) as [cell|]; [|cbn; lia].
  destruct (0 <? length (trim cell)); cbn; lia.
Qed.

Lemma flat_map_length_le {A B} (f : A -> list B) (l : list A) :
  (forall x, length (f x) <= 1) -> length (flat_map f l) <= length l.
Proof.
  intros H. induction l as [|x l IH]; cbn [flat_map length]; [lia|].
  rewrite length_app. specialize (H x). lia.
Qed.

(** X5.  The extraction keeps, row by row, the trimmed text of the cell in
    the column when that text is not empty; so the lines are trimmed, not
    blank and have a non-empty key, their count is [nonEmptyRows] and is at
    most [totalRows]; a column outside every row gives no line; and on a
    table whose cells are trimmed, as those of [parseCSV] are, the lines are
    the non-empty cells of the column unchanged. *)
Theorem extractTextFromCSV_spec (parsed : ParsedCSV) (index : Z) :
  let result := extractTextFromCSV parsed index in
  textLines result = flat_map (textAt index) (rows parsed)
  /\ nonEmptyRows result = length (textLines result)
  /\ totalRows result = length (rows parsed)
  /\ nonEmptyRows result <= totalRows result
  /\ (forall line, In line (textLines result) ->
        Trimmed line /\ line <> [] /\ keyOf line <> []
        /\ exists row cell,
             In row (rows parsed) /\ cellOf row index = Some cell
             /\ line = trim cell)
  /\ ((index < 0)%Z \/
      (forall row, In row (rows parsed) ->
                   (Z.of_nat (length row) <= index)%Z) ->
      textLines result = [])
  /\ ((0 <= index)%Z ->
      (forall row cell, In row (rows parsed) -> In cell row -> Trimmed cell) ->
      textLines result = flat_map (cellAt (Z.to_nat index)) (rows parsed)).
Proof.
  cbv zeta. unfold extractTextFromCSV.
  cbn [textLines nonEmptyRows totalRows].
  rewrite extract_fold. cbn [app].
  split; [reflexivity|]. split; [reflexivity|]. split; [reflexivity|].
  split; [apply flat_map_length_le, textAt_length|].
  split; [|split].
  - intros line Hl. apply in_flat_map in Hl as [row [Hr Hl]].
    unfold textAt in Hl. destruct (cellOf row index) as [cell|] eqn:Ec;
      [|destruct Hl].
    destruct (0 <? length (trim cell)) eqn:En; [|destruct Hl].
    destruct Hl as [<-|[]]. apply Nat.ltb_lt in En.
    assert (Hne : trim cell <> [])
      by (destruct (trim cell); [cbn in En; lia | discriminate]).
    split; [apply trim_Trimmed|]. split; [exact Hne|].
    split; [|exists row, cell; auto].
    intros K. apply (proj1 (keyOf_nil_iff (trim cell))) in K.
    rewrite trim_idempotent in K.
    exact (Hne K).
  - intros H.
    assert (E : forall table,
              (forall row, In row table -> textAt index row = []) ->
              flat_map (textAt index) table = []).
    { induction table as [|row table IHt]; intros Ht; [reflexivity|].
      cbn [flat_map]. rewrite (Ht row (or_introl eq_refl)).
      apply IHt. intros r Hr; apply Ht; now right. }
    apply E. intros row Hr. unfold textAt, cellOf.
    destruct H as [H|H].
    + replace (index <? 0)%Z with true
        by (symmetry; apply Z.ltb_lt; exact H). reflexivity.
    + destruct (index <? 0)%Z; [reflexivity|].
      replace (nth_error row (Z.to_nat index)) with (@None jsstring);
        [reflexivity|].
      symmetry. apply nth_error_None. specialize (H row Hr). lia.
  - intros H0 Ht.
    assert (E : forall table,
              (forall row cell, In row table -> In cell row -> Trimmed cell) ->
              flat_map (textAt index) table
              = flat_map (cellAt (Z.to_nat index)) table).
    { induction table as [|row table IHt]; intros Htab; [reflexivity|].
      cbn [flat_map]. rewrite IHt
        by (intros r c Hr Hc; apply (Htab r c); [now right | exact Hc]).
      f_equal. unfold textAt, cellAt, cellOf.
      replace (index <? 0)%Z with false
        by (symmetry; apply Z.ltb_ge; exact H0).
      destruct (nth_error row (Z.to_nat index)) as [cell|] eqn:Ec;
        [|reflexivity].
      rewrite (Trimmed_trim cell); [reflexivity|].
      apply (Htab row cell); [now left|].
      eapply nth_error_In; exact Ec. }
    apply E, Ht.
Qed.

(** The theorem at the sample table: the comments of column 1, nothing
    for a column that no row has, and the cells of a trimmed table as they
    are. *)
Lemma extractTextFromCSV_spec_witness :
  textLines (extractTextFromCSV sampleTable 1) = [str "slow"; str "crash"]
  /\ textLines (extractTextFromCSV sampleTable 2) = []
  /\ textLines (extractTextFromCSV
                  (mkParsedCSV [[str "a"; str "b"]; [str ""; str "c"]]
                               None Comma) 0)
     = [str "a"].
Proof.
  split; [|split].
  - destruct (extractTextFromCSV_spec sampleTable 1) as [H _].
    rewrite H. reflexivity.
  - destruct (extractTextFromCSV_spec sampleTable 2)
      as [_ [_ [_ [_ [_ [H _]]]]]].
    apply H. right. intros row [<-|[<-|[<-|[<-|[]]]]]; cbn; lia.
  - destruct (extractTextFromCSV_spec
                (mkParsedCSV [[str "a"; str "b"]; [str ""; str "c"]]
                             None Comma) 0)
      as [_ [_ [_ [_ [_ [_ H]]]]]].
    rewrite H; [reflexivity | lia |].
    intros row cell Hr Hc. cbn [rows] in Hr.
    assert (E : trim cell = cell).
    { destruct Hr as [<-|[<-|[]]]; destruct Hc as [<-|[<-|[]]]; reflexivity. }
    rewrite <- E. apply trim_Trimmed.
Defined.

End TableFacts.

(** ** Delimiter detection *)

Module DelimiterFacts.
Import JS Csv JSFacts StringFacts.

Lemma splitLF_piece (p rest : jsstring) :
  ~ In newline p -> splitLF (p ++ newline :: rest) = p :: splitLF rest.
Proof.
  induction p as [|c p IH]; intros Hp; cbn [app splitLF].
  - now rewrite Ascii.eqb_refl.
  - replace (Ascii.eqb c newline) with false
      by (symmetry; apply Ascii.eqb_neq; intros ->; apply Hp; now left).
    rewrite IH by (intros H; apply Hp; now right). reflexivity.
Qed.

(** Text after a line feed does not change the pieces before it. *)
Lemma splitLF_join_app (pieces : list jsstring) (rest : jsstring) :
  pieces <> [] -> (forall p, In p pieces -> ~ In newline p) ->
  splitLF (join [newline] pieces ++ newline :: rest)
  = pieces ++ splitLF rest.
Proof.
  induction pieces as [|p pieces IH]; intros Hne Hp; [congruence|].
  destruct pieces as [|q pieces].
  - cbn [join app]. apply splitLF_piece, Hp. now left.
  - change (join [newline] (p :: q :: pieces))
      with (p ++ newline :: join [newline] (q :: pieces)).
    rewrite <- app_assoc. cbn [app].
    rewrite splitLF_piece by (apply Hp; now left).
    cbn [app]. f_equal.
    apply IH; [discriminate|]. intros r Hr; apply Hp; now right.
Qed.

Lemma countChar_app c (a b : jsstring) :
  countChar c (a ++ b) = countChar c a + countChar c b.
Proof. unfold countChar. now rewrite filter_app, length_app. Qed.

(** The separators of [join] are not counted. *)
Lemma countChar_join c (pieces : list jsstring) :
  c <> newline ->
  countChar c (join [newline] pieces)
  = list_sum (map (countChar c) pieces).
Proof.
  intros Hc. induction pieces as [|p pieces IH]; [reflexivity|].
  destruct pieces as [|q pieces].
  - cbn [join map list_sum fold_right]. lia.
  - change (join [newline] (p :: q :: pieces))
      with (p ++ [newline] ++ join [newline] (q :: pieces)).
    rewrite !countChar_app, IH. cbn [map list_sum fold_right].
    replace (countChar c [newline]) with 0; [lia|].
    unfold countChar. cbn [filter].
    replace (Ascii.eqb c newline) with false
      by (symmetry; apply Ascii.eqb_neq; exact Hc).
    reflexivity.
Qed.

(** X1.  The delimiter is decided by the first five lines alone: it is the
    semicolon exactly when those lines hold strictly more semicolons than
    commas, quoted or not, and the comma otherwise; whatever follows the
    fifth line does not matter. *)
Theorem detectDelimiter_first_lines (first : list jsstring) (rest : jsstring) :
  first <> [] -> length first <= 5 ->
  (forall line, In line first -> ~ In newline line) ->
  detectDelimiter (join [newline] first)
  = (if list_sum (map (countChar comma) first)
        <? list_sum (map (countChar semicolon) first)
     then Semicolon else Comma)
  /\ (length first = 5 ->
      detectDelimiter (join [newline] first ++ newline :: rest)
      = detectDelimiter (join [newline] first)).
Proof.
  intros Hne Hlen Hlf.
  assert (E : detectDelimiter (join [newline] first)
              = (if list_sum (map (countChar comma) first)
                    <? list_sum (map (countChar semicolon) first)
                 then Semicolon else Comma)).
  { unfold detectDelimiter. rewrite splitLF_join by assumption.
    unfold slice. cbn [skipn]. rewrite firstn_all2 by (cbn; lia).
    rewrite !countChar_join by discriminate. reflexivity. }
  split; [exact E|].
  intros H5. rewrite E. unfold detectDelimiter.
  rewrite splitLF_join_app by assumption.
  unfold slice. cbn [skipn].
  replace (5 - 0) with (length first + 0) by lia.
  rewrite firstn_app_2. cbn [firstn]. rewrite app_nil_r.
  rewrite !countChar_join by discriminate. reflexivity.
Qed.

(** The theorem at five lines with more semicolons than commas, followed
    by a line full of commas. *)
Lemma detectDelimiter_first_lines_witness :
  detectDelimiter
    (join [newline] [str "a;b"; str "c;d"; str "e,f"; str "g;h"; str "i;j"]
     ++ newline :: str ",,,,,,,,,")
  = Semicolon.
Proof.
  destruct (detectDelimiter_first_lines
              [str "a;b"; str "c;d"; str "e,f"; str "g;h"; str "i;j"]
              (str ",,,,,,,,,")) as [H1 H2].
  - discriminate.
  - cbn; lia.
  - intros line Hl F.
    assert (B : forallb (fun l => negb (existsb (Ascii.eqb newline) l))
                  [str "a;b"; str "c;d"; str "e,f"; str "g;h"; str "i;j"]
                = true) by reflexivity.
    rewrite forallb_forall in B. specialize (B line Hl).
    apply negb_true_iff in B.
    assert (existsb (Ascii.eqb newline) line = true); [|congruence].
    apply existsb_exists. exists newline. split; [exact F|].
    apply Ascii.eqb_refl.
  - rewrite H2 by reflexivity. rewrite H1. reflexivity.
Defined.

End DelimiterFacts.

(** ** The array literal of the remote response *)

Module MatchFacts.
Import JS Csv Feedback JSFacts.

Lemma upToLastClose_None (s : jsstring) :
  upToLastClose s = None <-> ~ In closeBracket s.
Proof.
  induction s as [|c s IH]; cbn [upToLastClose].
  - split; [intros _ [] | reflexivity].
  - destruct (upToLastClose s) as [p|].
    + split; [discriminate|]. intros H. exfalso.
      assert (N : ~ In closeBracket s) by (intros F; apply H; now right).
      apply IH in N. discriminate.
    + destruct (Ascii.eqb c closeBracket) eqn:E.
      * apply Ascii.eqb_eq in E. split; [discriminate|].
        intros H; exfalso; apply H; now left.
      * apply Ascii.eqb_neq in E. split; [|reflexivity].
        intros _ [F|F]; [congruence|].
        destruct IH as [IH _]. exact (IH eq_refl F).
Qed.

Lemma upToLastClose_Some (s p : jsstring) :
  upToLastClose s = Some p <->
  exists mid post,
    s = mid ++ closeBracket :: post /\ ~ In closeBracket post
    /\ p = mid ++ [closeBracket].
Proof.
  revert p. induction s as [|c s IH]; intros p; cbn [upToLastClose].
  - split; [discriminate|]. intros [mid [post [E _]]].
    destruct mid; discriminate.
  - destruct (upToLastClose s) as [q|] eqn:U.
    + split.
      * intros E; inversion E; subst.
        destruct (proj1 (IH q) eq_refl) as [mid [post [E1 [E2 E3]]]].
        exists (c :: mid), post. subst. auto.
      * intros [mid [post [E1 [E2 E3]]]].
        destruct mid as [|x mid].
        -- cbn [app] in E1. inversion E1; subst.
           apply upToLastClose_None in E2. congruence.
        -- cbn [app] in E1. inversion E1; subst.
           assert (H : Some q = Some (mid ++ [closeBracket])).
           { apply IH. exists mid, post. auto. }
           inversion H; subst. reflexivity.
    + pose proof (proj1 (upToLastClose_None s) U) as N.
      destruct (Ascii.eqb c closeBracket) eqn:E.
      * apply Ascii.eqb_eq in E; subst. split.
        -- intros H; inversion H; subst. exists [], s. auto.
        -- intros [mid [post [E1 [E2 E3]]]].
           destruct mid as [|x mid].
           ++ subst; reflexivity.
           ++ cbn [app] in E1. inversion E1; subst.
              exfalso; apply N. apply in_or_app; right; now left.
      * apply Ascii.eqb_neq in E. split; [discriminate|].
        intros [mid [post [E1 [E2 E3]]]].
        destruct mid as [|x mid]; cbn [app] in E1; inversion E1; subst.
        -- congruence.
        -- exfalso; apply N. apply in_or_app; right; now left.
Qed.

(** X9.  The match of the array pattern is the span from the first opening
    bracket of the text to the last closing bracket after it, and there is
    no match exactly when the text has no opening bracket or no closing
    bracket follows the first opening one. *)
Theorem matchArray_span (content : jsstring) :
  (forall m,
     matchArray content = Some m <->
     exists pre mid post,
       content = pre ++ openBracket :: mid ++ closeBracket :: post
       /\ ~ In openBracket pre /\ ~ In closeBracket post
       /\ m = openBracket :: mid ++ [closeBracket])
  /\ (matchArray content = None <->
      ~ In openBracket content
      \/ exists pre after,
           content = pre ++ openBracket :: after
           /\ ~ In openBracket pre /\ ~ In closeBracket after).
Proof.
  induction content as [|c content [IH1 IH2]]; cbn [matchArray].
  - split.
    + intros m. split; [discriminate|].
      intros [pre [mid [post [E _]]]]. destruct pre; discriminate.
    + split; [intros _; left; intros [] | reflexivity].
  - destruct (Ascii.eqb c openBracket) eqn:Ec.
    + apply Ascii.eqb_eq in Ec; subst c.
      destruct (upToLastClose content) as [p|] eqn:U.
      * apply upToLastClose_Some in U as [mid [post [E1 [E2 E3]]]].
        subst. split.
        -- intros m. split.
           ++ intros H; inversion H; subst. exists [], mid, post. auto.
           ++ intros [pre [mid' [post' [F1 [F2 [F3 F4]]]]]].
              destruct pre as [|x pre].
              ** cbn [app] in F1. inversion F1 as [F1'].
                 assert (H : upToLastClose (mid ++ closeBracket :: post)
                             = Some (mid' ++ [closeBracket])).
                 { apply upToLastClose_Some. exists mid', post'. auto. }
                 assert (H' : upToLastClose (mid ++ closeBracket :: post)
                              = Some (mid ++ [closeBracket])).
                 { apply upToLastClose_Some. exists mid, post. auto. }
                 rewrite H in H'. injection H' as H'.
                 rewrite F4, H'. reflexivity.
              ** cbn [app] in F1. inversion F1; subst.
                 exfalso; apply F2; now left.
        -- split; [discriminate|]. intros [H|[pre [after [F1 [F2 F3]]]]].
           ++ exfalso; apply H; now left.
           ++ destruct pre as [|x pre].
              ** cbn [app] in F1. inversion F1 as [F1']. subst after.
                 exfalso; apply F3. apply in_or_app; right; now left.
              ** cbn [app] in F1. inversion F1; subst.
                 exfalso; apply F2; now left.
      * apply upToLastClose_None in U. split.
        -- intros m. split; [discriminate|].
           intros [pre [mid [post [F1 [F2 _]]]]].
           destruct pre as [|x pre].
           ++ cbn [app] in F1. inversion F1; subst.
              exfalso; apply U. apply in_or_app; right; now left.
           ++ cbn [app] in F1. inversion F1; subst.
              exfalso; apply F2; now left.
        -- split; [|reflexivity]. intros _. right.
           exists [], content. auto.
    + apply Ascii.eqb_neq in Ec. split.
      * intros m. rewrite IH1. split.
        -- intros [pre [mid [post [F1 [F2 [F3 F4]]]]]].
           exists (c :: pre), mid, post. subst.
           repeat split; auto. intros [F|F]; [congruence | auto].
        -- intros [pre [mid [post [F1 [F2 [F3 F4]]]]]].
           destruct pre as [|x pre]; cbn [app] in F1; inversion F1; subst.
           ++ congruence.
           ++ exists pre, mid, post. repeat split; auto.
              intros F; apply F2; now right.
      * rewrite IH2. split.
        -- intros [H|[pre [after [F1 [F2 F3]]]]].
           ++ left. intros [F|F]; [congruence | auto].
           ++ right. exists (c :: pre), after. subst.
              repeat split; auto. intros [F|F]; [congruence | auto].
        -- intros [H|[pre [after [F1 [F2 F3]]]]].
           ++ left. intros F; apply H; now right.
           ++ destruct pre as [|x pre]; cbn [app] in F1; inversion F1; subst.
              ** congruence.
              ** right. exists pre, after. repeat split; auto.
                 intros F; apply F2; now right.
Qed.

(** The theorem at a text with two bracketed parts: the match runs from
    the first opening bracket to the last closing one. *)
Lemma matchArray_span_witness :
  matchArray (str "see [1] and [2] ok") = Some (str "[1] and [2]")
  /\ matchArray (str "] no array [") = None.
Proof.
  destruct (matchArray_span (str "see [1] and [2] ok")) as [H _].
  destruct (matchArray_span (str "] no array [")) as [_ H'].
  split.
  - apply H. exists (str "see "), (str "1] and [2"), (str " ok").
    split; [reflexivity|].
    split; [intros [F|[F|[F|[F|[]]]]]; discriminate|].
    split; [intros [F|[F|[F|[]]]]; discriminate | reflexivity].
  - apply H'. right. exists (str "] no array "), [].
    split; [reflexivity|]. split; [|intros []].
    intros F. cbn in F.
    repeat (destruct F as [F|F]; [discriminate|]). exact F.
Defined.

End MatchFacts.

(** ** More on the merger and on the fallback classifier *)

Module MergeMoreFacts.
Import JS Csv Feedback JSFacts StringFacts MergeFacts MockFacts.

(** What is kept is a line of the input with a non-empty key that no
    earlier line has, and it is the first line with that key. *)
Lemma firstOccurrences_In (lines : list jsstring) :
  forall earlier u,
    In u (firstOccurrences earlier lines) ->
    keyOf u <> [] /\ seenIn earlier (keyOf u) = false
    /\ find (fun l => streq (keyOf l) (keyOf u)) lines = Some u.
Proof.
  induction lines as [|line rest IH]; intros earlier u;
    cbn [firstOccurrences]; [intros []|].
  intros H. apply in_app_or in H as [H|H].
  - fold (seenIn earlier (keyOf line)) in H.
    destruct (0 <? length (keyOf line)) eqn:Hk; [|destruct H].
    destruct (seenIn earlier (keyOf line)) eqn:Hs; [destruct H|].
    destruct H as [<-|[]]. apply Nat.ltb_lt in Hk.
    split; [destruct (keyOf line); [cbn in Hk; lia | discriminate]|].
    split; [exact Hs|]. cbn [find]. now rewrite streq_refl.
  - destruct (IH (earlier ++ [line]) u H) as [H1 [H2 H3]].
    unfold seenIn in H2. rewrite existsb_app in H2.
    apply orb_false_iff in H2 as [H2 H4]. cbn [existsb] in H4.
    rewrite orb_false_r in H4.
    split; [exact H1|]. split; [exact H2|].
    cbn [find]. rewrite H4. exact H3.
Qed.

Lemma firstOccurrences_NoDup (lines : list jsstring) :
  forall earlier, NoDup (map keyOf (firstOccurrences earlier lines)).
Proof.
  induction lines as [|line rest IH]; intros earlier;
    cbn [firstOccurrences]; [constructor|].
  destruct ((0 <? length (keyOf line))
            && negb (existsb (fun e => streq (keyOf e) (keyOf line)) earlier));
    cbn [app map]; [|apply IH].
  constructor; [|apply IH].
  intros H. apply in_map_iff in H as [u [Hu Hin]].
  destruct (firstOccurrences_In rest (earlier ++ [line]) u Hin) as [_ [H2 _]].
  unfold seenIn in H2. rewrite existsb_app in H2.
  apply orb_false_iff in H2 as [_ H2]. cbn [existsb] in H2.
  rewrite orb_false_r, Hu, streq_refl in H2. discriminate.
Qed.

(** Every key that is not empty and not yet seen is kept with some line. *)
Lemma firstOccurrences_complete (lines : list jsstring) :
  forall earlier l,
    In l lines -> keyOf l <> [] -> seenIn earlier (keyOf l) = false ->
    exists u, In u (firstOccurrences earlier lines) /\ keyOf u = keyOf l.
Proof.
  induction lines as [|line rest IH]; intros earlier l Hin Hk Hs;
    [destruct Hin|].
  cbn [firstOccurrences]. fold (seenIn earlier (keyOf line)).
  destruct (streq (keyOf line) (keyOf l)) eqn:E.
  - apply streq_true_iff in E. rewrite E, Hs.
    replace (0 <? length (keyOf l)) with true
      by (symmetry; apply Nat.ltb_lt; destruct (keyOf l);
          [congruence | cbn; lia]).
    exists line. split; [now left | exact E].
  - destruct Hin as [->|Hin]; [rewrite streq_refl in E; discriminate|].
    destruct (IH (earlier ++ [line]) l Hin Hk) as [u [Hu Hku]].
    + unfold seenIn in *. rewrite existsb_app, Hs. cbn [existsb].
      now rewrite E.
    + exists u. split; [apply in_or_app; now right | exact Hku].
Qed.

Lemma NoDup_firstn {A} (n : nat) (l : list A) : NoDup l -> NoDup (firstn n l).
Proof.
  revert l. induction n as [|n IH]; intros [|x l] H; cbn [firstn];
    try constructor.
  - inversion H; subst. intros F. apply In_firstn in F. contradiction.
  - inversion H; subst. now apply IH.
Qed.

Lemma merged_facts (text csv : list jsstring) :
  length (merged (mergeInputs text csv)) <= 500
  /\ NoDup (map keyOf (merged (mergeInputs text csv)))
  /\ (forall u, In u (merged (mergeInputs text csv)) ->
        keyOf u <> []
        /\ find (fun l => streq (keyOf l) (keyOf u)) (text ++ csv) = Some u).
Proof.
  unfold mergeInputs, MAX_LINES.
  cbn [merged]. rewrite slice_0, mergeInputs_unique.
  split; [apply firstn_le_length|].
  split.
  { rewrite <- firstn_map. apply NoDup_firstn, firstOccurrences_NoDup. }
  intros u Hu. apply In_firstn in Hu.
  destruct (firstOccurrences_In _ [] u Hu) as [H1 [_ H3]]. auto.
Qed.

(** X6.  The merged lines are input lines with non-empty, pairwise different
    keys, never more than 500; each is the first line of the free text
    followed by the CSV lines that has its key, so the wording of the free
    text wins over a CSV duplicate; and unless the cap cut the result, every
    input line with a non-empty key has its key among the merged lines. *)
Theorem mergeInputs_sound (text csv : list jsstring) :
  let result := mergeInputs text csv in
  length (merged result) <= 500
  /\ NoDup (map keyOf (merged result))
  /\ (forall u, In u (merged result) ->
        keyOf u <> []
        /\ find (fun l => streq (keyOf l) (keyOf u)) (text ++ csv) = Some u)
  /\ (capped (stats result) = false ->
      forall l, In l (text ++ csv) -> keyOf l <> [] ->
                exists u, In u (merged result) /\ keyOf u = keyOf l).
Proof.
  cbv zeta. destruct (merged_facts text csv) as [Hlen [Hnd Hin]].
  split; [exact Hlen|]. split; [exact Hnd|]. split; [exact Hin|].
  unfold mergeInputs, MAX_LINES. cbn [merged stats capped].
  rewrite slice_0, mergeInputs_unique.
  intros Hc l Hl Hk. apply Nat.ltb_ge in Hc.
  rewrite firstn_all2 by exact Hc.
  apply firstOccurrences_complete; auto.
Qed.

(** The theorem at the merge of the specification: the free-text wording
    of a duplicate is the one kept. *)
Lemma mergeInputs_sound_witness :
  find (fun l => streq (keyOf l) (keyOf (str "World")))
       ([str "Hello"; str "hello "; str "World"] ++ [str "world"; str "Foo"])
  = Some (str "World")
  /\ exists u,
       In u (merged (mergeInputs [str "Hello"; str "hello "; str "World"]
                                 [str "world"; str "Foo"]))
       /\ keyOf u = keyOf (str "world").
Proof.
  destruct (mergeInputs_sound [str "Hello"; str "hello "; str "World"]
              [str "world"; str "Foo"]) as [_ [_ [H1 H2]]].
  split.
  - apply (H1 (str "World")). vm_compute. right; left; reflexivity.
  - apply H2.
    + reflexivity.
    + vm_compute. do 3 right. left; reflexivity.
    + discriminate.
Defined.

(** X7.  Merging again what a merge returned changes nothing: the same lines
    come back, nothing is capped and the count before the cap is theirs. *)
Theorem mergeInputs_idempotent (text csv : list jsstring) :
  let once := merged (mergeInputs text csv) in
  merged (mergeInputs once []) = once
  /\ merged (mergeInputs [] once) = once
  /\ capped (stats (mergeInputs once [])) = false
  /\ totalBeforeCap (stats (mergeInputs once [])) = length once.
Proof.
  cbv zeta.
  destruct (merged_facts text csv) as [Hlen [Hnd Hin]].
  set (once := merged (mergeInputs text csv)) in *.
  assert (E : firstOccurrences [] once = once).
  { apply firstOccurrences_all; [exact Hnd|].
    intros l Hl. apply (Hin l Hl). }
  unfold mergeInputs, MAX_LINES.
  cbn [merged stats capped totalBeforeCap].
  rewrite !slice_0, app_nil_r. cbn [app].
  pose proof (mergeInputs_unique once []) as U.
  rewrite app_nil_r in U. rewrite U, E.
  split; [apply firstn_all2; exact Hlen|].
  split; [apply firstn_all2; exact Hlen|].
  split; [apply Nat.ltb_ge; exact Hlen | reflexivity].
Qed.

(** X8.  When no bucket qualifies, the fallback returns three themes for
    three lines and for five or more, but only two themes for exactly four
    lines, and one theme per line below three. *)
Theorem chunk_branch_count (lines : list jsstring) :
  bucketBranch lines = [] ->
  length (mockAnalysis lines)
  = match length lines with
    | 0 => 0
    | 1 => 1
    | 2 => 2
    | 4 => 2
    | _ => 3
    end.
Proof.
  intros Hb. rewrite mockAnalysis_branches. unfold chunkBranch.
  rewrite Hb. cbn [app flat_map]. rewrite app_nil_r.
  assert (L : forall i,
            length (chunkThemeAt lines i)
            = if i * ceilDiv3 (length lines) <? length lines then 1 else 0).
  { intros i. unfold chunkThemeAt, chunkAt.
    rewrite length_firstn, length_skipn.
    pose proof (ceilDiv3_bounds (length lines)) as B.
    destruct (i * ceilDiv3 (length lines) <? length lines) eqn:E.
    - apply Nat.ltb_lt in E.
      replace (0 <? Nat.min (ceilDiv3 (length lines))
                      (length lines - i * ceilDiv3 (length lines)))
        with true by (symmetry; apply Nat.ltb_lt; lia).
      reflexivity.
    - apply Nat.ltb_ge in E.
      replace (0 <? Nat.min (ceilDiv3 (length lines))
                      (length lines - i * ceilDiv3 (length lines)))
        with false by (symmetry; apply Nat.ltb_ge; lia).
      reflexivity. }
  rewrite firstn_all2 by (rewrite !length_app, !L;
    repeat match goal with |- context [if ?b then 1 else 0] =>
      destruct b end; lia).
  rewrite !length_app, !L.
  pose proof (ceilDiv3_bounds (length lines)) as B.
  set (n := length lines) in *. set (size := ceilDiv3 n) in *.
  destruct (0 * size <? n) eqn:E0, (1 * size <? n) eqn:E1,
           (2 * size <? n) eqn:E2;
    repeat match goal with
    | H : (_ <? _) = true |- _ => apply Nat.ltb_lt in H
    | H : (_ <? _) = false |- _ => apply Nat.ltb_ge in H
    end;
    do 5 (destruct n as [|n]; try lia; try reflexivity).
Qed.

(** The theorem at four lines that match no bucket: two themes. *)
Lemma chunk_branch_count_witness :
  length (mockAnalysis [str "aaa"; str "bbb"; str "ccc"; str "ddd"]) = 2.
Proof.
  exact (chunk_branch_count [str "aaa"; str "bbb"; str "ccc"; str "ddd"]
           eq_refl).
Defined.

End MergeMoreFacts.

(** ** Remembered columns *)

Module StorageFacts.
Import JS Csv Storage JSFacts ColumnFacts.

Lemma code_inj (x y : ascii) : code x = code y -> x = y.
Proof.
  unfold code. intros H.
  rewrite <- (ascii_nat_embedding x), <- (ascii_nat_embedding y), H.
  reflexivity.
Qed.

Lemma strleb_total (a : jsstring) :
  forall b, strleb a b = true \/ strleb b a = true.
Proof.
  induction a as [|x a IH]; intros [|y b]; cbn [strleb]; auto.
  destruct (code x <? code y) eqn:E1; [now left|].
  destruct (code y <? code x) eqn:E2; [now right|].
  apply IH.
Qed.

Lemma strleb_antisym (a : jsstring) :
  forall b, strleb a b = true -> strleb b a = true -> a = b.
Proof.
  induction a as [|x a IH]; intros [|y b]; cbn [strleb];
    try reflexivity; try discriminate.
  destruct (code x <? code y) eqn:E1, (code y <? code x) eqn:E2;
    try discriminate.
  - apply Nat.ltb_lt in E1, E2. lia.
  - apply Nat.ltb_ge in E1, E2. intros H1 H2.
    rewrite (code_inj x y) by lia. f_equal. now apply IH.
Qed.

Lemma strleb_trans (a : jsstring) :
  forall b c, strleb a b = true -> strleb b c = true -> strleb a c = true.
Proof.
  induction a as [|x a IH]; intros [|y b] [|z c]; cbn [strleb];
    try reflexivity; try discriminate.
  destruct (code x <? code y) eqn:E1, (code y <? code x) eqn:E2,
           (code y <? code z) eqn:E3, (code z <? code y) eqn:E4,
           (code x <? code z) eqn:E5, (code z <? code x) eqn:E6;
    repeat match goal with
    | H : (_ <? _) = true |- _ => apply Nat.ltb_lt in H
    | H : (_ <? _) = false |- _ => apply Nat.ltb_ge in H
    end; try lia; try reflexivity; try discriminate.
  apply IH.
Qed.

(** Insertions into any list commute. *)
Lemma insertString_comm (x y : jsstring) (l : list jsstring) :
  insertString x (insertString y l) = insertString y (insertString x l).
Proof.
  assert (Two : forall t,
            (if strleb x y then x :: y :: t else y :: x :: t)
            = (if strleb y x then y :: x :: t else x :: y :: t)).
  { intros t. destruct (strleb x y) eqn:A, (strleb y x) eqn:B;
      try reflexivity.
    - now rewrite (strleb_antisym x y A B).
    - destruct (strleb_total x y); congruence. }
  induction l as [|a l IH]; cbn [insertString].
  - destruct (strleb x y) eqn:A, (strleb y x) eqn:B; try reflexivity.
    + now rewrite (strleb_antisym x y A B).
    + destruct (strleb_total x y); congruence.
  - destruct (strleb y a) eqn:Ya, (strleb x a) eqn:Xa; cbn [insertString].
    + rewrite Ya, Xa.
      destruct (strleb x y) eqn:A, (strleb y x) eqn:B; try reflexivity.
      * now rewrite (strleb_antisym x y A B).
      * destruct (strleb_total x y); congruence.
    + rewrite Ya, Xa.
      destruct (strleb x y) eqn:A; [|reflexivity].
      rewrite (strleb_trans x y a A Ya) in Xa. discriminate.
    + rewrite Ya, Xa.
      destruct (strleb y x) eqn:B; [|reflexivity].
      rewrite (strleb_trans y x a B Xa) in Ya. discriminate.
    + rewrite Ya, Xa. now rewrite IH.
Qed.

(** Sorting does not depend on the order of the array. *)
Lemma sortStrings_Permutation (a b : list jsstring) :
  Permutation a b -> sortStrings a = sortStrings b.
Proof.
  unfold sortStrings. induction 1; cbn [fold_right].
  - reflexivity.
  - now f_equal.
  - apply insertString_comm.
  - congruence.
Qed.



(** X12.  The fingerprint of a header set does not depend on the order of the
    headers nor on their letter case or surrounding white space: header
    lists whose lower-cased, trimmed names are rearrangements of each other
    have the same fingerprint. *)
Theorem headerSetHash_invariant (a b : list jsstring) :
  Permutation (map keyOf a) (map keyOf b) ->
  headerSetHash a = headerSetHash b.
Proof.
  intros P. unfold headerSetHash.
  change (map (fun h => trim (toLowerCase h)) a) with (map keyOf a).
  change (map (fun h => trim (toLowerCase h)) b) with (map keyOf b).
  now rewrite (sortStrings_Permutation _ _ P).
Qed.

(** The theorem at two header rows that differ in order, case and
    spacing. *)
Lemma headerSetHash_invariant_witness :
  headerSetHash [str "Name"; str " Comment "; str "id"]
  = headerSetHash [str "ID"; str "name"; str "comment"].
Proof.
  apply headerSetHash_invariant.
  change (Permutation [str "name"; str "comment"; str "id"]
                      [str "id"; str "name"; str "comment"]).
  apply Permutation_sym, (Permutation_cons_app [_; _] []).
  apply Permutation_refl.
Defined.








End StorageFacts.

(** ** The theme card and the analysis handler *)

Module AppFacts.
Import JS Csv Feedback App JSFacts StringFacts MockFacts MergeMoreFacts.

Lemma nth_error_mapAt {A} (f : A -> A) (l : list A) :
  forall index,
    nth_error (mapAt f index l) index = option_map f (nth_error l index)
    /\ (forall j, j <> index ->
                  nth_error (mapAt f index l) j = nth_error l j).
Proof.
  induction l as [|x l IH]; intros [|i]; cbn [mapAt nth_error option_map];
    try (split; [reflexivity | intros; reflexivity]).
  - split; [reflexivity|]. intros [|j] Hj; [congruence | reflexivity].
  - destruct (IH i) as [H1 H2]. split; [exact H1|].
    intros [|j] Hj; cbn [nth_error]; [reflexivity | apply H2; lia].
Qed.

Lemma map_mapAt {A B} (g : A -> B) (f : A -> A) (l : list A) :
  (forall x, g (f x) = g x) ->
  forall index, map g (mapAt f index l) = map g l.
Proof.
  intros H. induction l as [|x l IH]; intros [|i]; cbn [mapAt map];
    try reflexivity.
  - now rewrite H.
  - now rewrite IH.
Qed.

Lemma validateTitle_None (value : jsstring) :
  validateTitle value = None ->
  2 <= length (trim value) <= 48 /\ onlyPunctuation (trim value) = false.
Proof.
  unfold validateTitle.
  destruct (length (trim value) <? 2) eqn:E1; [discriminate|].
  destruct (48 <? length (trim value)) eqn:E2; [discriminate|].
  destruct (onlyPunctuation (trim value)); [discriminate|].
  apply Nat.ltb_ge in E1, E2. intros _. auto.
Qed.

(** X11.  Saving a title that passes the validation makes the effective title
    of that card the trimmed text, of 2 to 48 characters and not only
    punctuation, keeps the generated theme of the card and every other card
    as they were, and closes the editor; resetting the titles afterwards
    brings every effective title back to the generated one.  A title that
    fails the validation changes no card and stays in the editor with the
    error. *)
Theorem rename_roundtrip (cards : list Card) (index : nat) (c : Card)
    (ed : Editor) :
  nth_error cards index = Some c ->
  (validateTitle (editValue ed) = None ->
   exists c',
     nth_error (renameVia index ed cards) index = Some c'
     /\ getEffectiveTitle c' = trim (editValue ed)
     /\ card_theme c' = card_theme c
     /\ 2 <= length (trim (editValue ed)) <= 48
     /\ onlyPunctuation (trim (editValue ed)) = false
     /\ (forall j, j <> index ->
           nth_error (renameVia index ed cards) j = nth_error cards j)
     /\ fst (saveEdit c ed) = mkEditor false (editValue ed) []
     /\ map getEffectiveTitle (handleResetTitles (renameVia index ed cards))
        = map (fun c => title (card_theme c)) cards)
  /\ (forall message,
        validateTitle (editValue ed) = Some message ->
        renameVia index ed cards = cards
        /\ fst (saveEdit c ed)
           = mkEditor (isEditing ed) (editValue ed) message).
Proof.
  intros Hc. split.
  - intros Hv. destruct (validateTitle_None _ Hv) as [Hlen Hp].
    unfold renameVia. rewrite Hc. unfold saveEdit. rewrite Hv. cbn [fst snd].
    assert (Reset : forall l : list Card,
              map getEffectiveTitle (handleResetTitles l)
              = map (fun c => title (card_theme c)) l).
    { intros l. unfold handleResetTitles. rewrite map_map. reflexivity. }
    destruct (streq (trim (editValue ed)) (getEffectiveTitle c)) eqn:E.
    + apply streq_true_iff in E. exists c.
      split; [exact Hc|]. split; [now symmetry|].
      split; [reflexivity|]. split; [exact Hlen|]. split; [exact Hp|].
      split; [reflexivity|]. split; [reflexivity | apply Reset].
    + unfold handleRenameTheme.
      destruct (nth_error_mapAt
                  (fun c => mkCard (card_theme c)
                                   (Some (trim (editValue ed))))
                  cards index) as [N1 N2].
      exists (mkCard (card_theme c) (Some (trim (editValue ed)))).
      split; [rewrite N1, Hc; reflexivity|].
      split.
      { unfold getEffectiveTitle. cbn [customTitle].
        rewrite trim_idempotent.
        replace (0 <? length (trim (editValue ed))) with true
          by (symmetry; apply Nat.ltb_lt; lia).
        reflexivity. }
      split; [reflexivity|]. split; [exact Hlen|]. split; [exact Hp|].
      split; [exact N2|]. split; [reflexivity|].
      rewrite Reset.
      change (fun c0 : Card => title (card_theme c0))
        with (fun c0 : Card => title ((fun c1 => card_theme c1) c0)).
      rewrite <- !(map_map (fun c1 => card_theme c1) title).
      f_equal. apply map_mapAt. reflexivity.
  - intros message Hv. unfold renameVia. rewrite Hc.
    unfold saveEdit. rewrite Hv. cbn [fst snd]. auto.
Qed.

(** The theorem at a card renamed with a padded title, and at a title of
    punctuation only. *)
Lemma rename_roundtrip_witness :
  let card := mkCard (mkTheme (str "Theme 1") [] [] None None) None in
  (exists c',
     nth_error (renameVia 0 (mkEditor true (str "  Login pain ") []) [card]) 0
     = Some c'
     /\ getEffectiveTitle c' = str "Login pain")
  /\ renameVia 0 (mkEditor true (str " ?!") []) [card] = [card].
Proof.
  cbv zeta.
  destruct (rename_roundtrip
              [mkCard (mkTheme (str "Theme 1") [] [] None None) None] 0
              (mkCard (mkTheme (str "Theme 1") [] [] None None) None)
              (mkEditor true (str "  Login pain ") []) eq_refl) as [H _].
  destruct (rename_roundtrip
              [mkCard (mkTheme (str "Theme 1") [] [] None None) None] 0
              (mkCard (mkTheme (str "Theme 1") [] [] None None) None)
              (mkEditor true (str " ?!") []) eq_refl) as [_ H'].
  split.
  - destruct (H eq_refl) as [c' [H1 [H2 _]]]. exists c'.
    split; [exact H1 | exact H2].
  - apply (H' (str "Title cannot contain only punctuation")). reflexivity.
Defined.

Section Analyze.

Variable JSON_parse : jsstring -> option (list Theme).


End Analyze.


End AppFacts.

(** ** Reading the labeled export back *)

Module RoundTripFacts.
Import JS Csv JSFacts CsvLineFacts StringFacts ExportFacts TableFacts.

Lemma splitCRLF_piece (p : jsstring) :
  forall rest,
    ~ In newline p -> NoFinalCR p ->
    splitCRLF (p ++ newline :: rest) = p :: splitCRLF rest.
Proof.
  induction p as [|c p IH]; intros rest Hlf Hcr.
  - cbn [app splitCRLF]. now rewrite Ascii.eqb_refl.
  - assert (Hc : Ascii.eqb c newline = false)
      by (apply Ascii.eqb_neq; intros ->; apply Hlf; now left).
    assert (Hp : ~ In newline p) by (intros H; apply Hlf; now right).
    assert (Hq : NoFinalCR p).
    { intros q E. apply (Hcr (c :: q)). now rewrite E. }
    cbn [app splitCRLF]. rewrite Hc.
    destruct p as [|c2 p2].
    + cbn [app]. replace (Ascii.eqb c cr) with false.
      * cbn [andb]. cbn [splitCRLF]. rewrite Ascii.eqb_refl. reflexivity.
      * symmetry. apply Ascii.eqb_neq. intros ->. now apply (Hcr []).
    + cbn [app].
      replace (Ascii.eqb c2 newline) with false
        by (symmetry; apply Ascii.eqb_neq; intros ->; apply Hp; now left).
      rewrite andb_false_r.
      change (c2 :: p2 ++ newline :: rest)
        with ((c2 :: p2) ++ newline :: rest).
      rewrite IH by assumption. reflexivity.
Qed.

Lemma splitCRLF_last (p : jsstring) :
  ~ In newline p -> splitCRLF p = [p].
Proof.
  induction p as [|c p IH]; intros Hlf; [reflexivity|].
  assert (Hc : Ascii.eqb c newline = false)
    by (apply Ascii.eqb_neq; intros ->; apply Hlf; now left).
  assert (Hp : ~ In newline p) by (intros H; apply Hlf; now right).
  cbn [splitCRLF]. rewrite Hc, (IH Hp).
  destruct p as [|c2 p2]; [reflexivity|].
  replace (Ascii.eqb c2 newline) with false
    by (symmetry; apply Ascii.eqb_neq; intros ->; apply Hp; now left).
  rewrite andb_false_r. reflexivity.
Qed.

Lemma splitCRLF_join (pieces : list jsstring) :
  pieces <> [] ->
  (forall p, In p pieces -> ~ In newline p /\ NoFinalCR p) ->
  splitCRLF (join [newline] pieces) = pieces.
Proof.
  induction pieces as [|p pieces IH]; intros Hne Hp; [congruence|].
  destruct pieces as [|q pieces].
  - cbn [join]. apply splitCRLF_last, Hp. now left.
  - change (join [newline] (p :: q :: pieces))
      with (p ++ newline :: join [newline] (q :: pieces)).
    destruct (Hp p (or_introl eq_refl)) as [H1 H2].
    rewrite splitCRLF_piece by assumption. f_equal.
    apply IH; [discriminate|]. intros r Hr; apply Hp; now right.
Qed.

Lemma In_join c (sep : jsstring) (pieces : list jsstring) :
  In c (join sep pieces) ->
  In c sep \/ exists p, In p pieces /\ In c p.
Proof.
  induction pieces as [|p pieces IH]; [intros []|].
  destruct pieces as [|q pieces].
  - cbn [join]. intros H. right. exists p. split; [now left | exact H].
  - change (join sep (p :: q :: pieces))
      with (p ++ sep ++ join sep (q :: pieces)).
    intros H. apply in_app_or in H as [H|H].
    + right. exists p. split; [now left | exact H].
    + apply in_app_or in H as [H|H]; [now left|].
      destruct (IH H) as [H'|[r [Hr Hc]]]; [now left|].
      right. exists r. split; [now right | exact Hc].
Qed.

Lemma In_quoted c (s : jsstring) : In c (quoted s) -> c = dquote \/ In c s.
Proof.
  unfold quoted, doubleQuotes. intros H.
  apply in_app_or in H as [[<-|[]]|H]; [now left|].
  apply in_app_or in H as [H|[<-|[]]]; [|now left].
  apply in_flat_map in H as [x [Hx H]].
  destruct (Ascii.eqb x dquote) eqn:E.
  - apply Ascii.eqb_eq in E; subst. destruct H as [<-|[<-|[]]]; now left.
  - destruct H as [<-|[]]. now right.
Qed.

Lemma In_labeledRow c (line theme : jsstring) :
  In c (labeledRow line theme) ->
  c = dquote \/ c = comma \/ In c line \/ In c theme.
Proof.
  unfold labeledRow. intros H.
  apply in_app_or in H as [H|H].
  - apply In_quoted in H as [H|H]; auto.
  - apply in_app_or in H as [[<-|[]]|H]; [auto|].
    apply In_quoted in H as [H|H]; auto.
Qed.

Lemma labeledRow_NoFinalCR (line theme : jsstring) :
  NoFinalCR (labeledRow line theme).
Proof.
  intros q E. unfold labeledRow, quoted in E.
  rewrite !app_assoc in E. apply app_inj_tail in E as [_ E]. discriminate.
Qed.

(** A string with a character that is not white space is not blank. *)
Lemma trim_not_nil (s : jsstring) c :
  In c s -> isWhiteSpace c = false -> trim s <> [].
Proof.
  intros Hin Hc.
  assert (S1 : forall t, In c t -> In c (trimStart t)).
  { induction t as [|x t IHt]; [intros []|]. cbn [trimStart].
    destruct (isWhiteSpace x) eqn:E; [|auto].
    intros [->|H]; [congruence | auto]. }
  unfold trim, trimEnd. intros E.
  apply (f_equal (@rev ascii)) in E. rewrite rev_involutive in E.
  cbn [rev] in E.
  assert (H : In c (trimStart (rev (trimStart s)))).
  { apply S1. apply -> in_rev. apply S1, Hin. }
  rewrite E in H. destruct H.
Qed.

Lemma countChar_absent c (s : jsstring) : ~ In c s -> countChar c s = 0.
Proof.
  unfold countChar. induction s as [|x s IH]; intros H; [reflexivity|].
  cbn [filter].
  replace (Ascii.eqb c x) with false
    by (symmetry; apply Ascii.eqb_neq; intros ->; apply H; now left).
  apply IH. intros F; apply H; now right.
Qed.

(** X15.  When no feedback line and no theme title holds a line feed or a
    semicolon and at least one line is labeled, the labeled export reads
    back through [parseCSV] as a comma-separated table whose header row is
    the fixed one and whose data rows are, in order, the trimmed line and
    the trimmed title of every labeled line. *)
Theorem export_import_roundtrip (feedbackLines : list jsstring)
    (themes : list Theme) :
  (forall line, In line feedbackLines ->
     ~ In newline line /\ ~ In semicolon line) ->
  (forall t, In t themes ->
     ~ In newline (title t) /\ ~ In semicolon (title t)) ->
  flat_map (labeledCells themes) feedbackLines <> [] ->
  parseCSV (createLabeledCSV feedbackLines themes)
  = Returns (mkParsedCSV (flat_map (labeledCells themes) feedbackLines)
                         (Some [str "original_text"; str "theme_title"])
                         Comma).
Proof.
  intros Hl Ht Hne.
  unfold createLabeledCSV. rewrite labeled_fold. cbn [app].
  set (R := flat_map (rowsOf themes) feedbackLines).
  (* every row: the characters it can hold, and how it parses *)
  assert (Rows : forall row, In row R ->
            (forall c, In c row -> c <> newline /\ c <> semicolon)
            /\ NoFinalCR row /\ In dquote row).
  { intros row Hr. unfold R in Hr. apply in_flat_map in Hr as [line [Hin Hr]].
    unfold rowsOf in Hr.
    destruct (earliestTheme themes line) as [t|] eqn:E; [|destruct Hr].
    destruct (0 <? length (title t)); [|destruct Hr].
    destruct Hr as [<-|[]].
    apply find_some in E as [E _].
    destruct (Hl line Hin) as [L1 L2]. destruct (Ht t E) as [T1 T2].
    split; [|split; [apply labeledRow_NoFinalCR | now left]].
    intros c Hc. apply In_labeledRow in Hc as [->|[->|[Hc|Hc]]].
    - split; discriminate.
    - split; discriminate.
    - split; intros ->; contradiction.
    - split; intros ->; contradiction. }
  assert (Parse : map (fun row => parseCSVLine row [comma]) R
                  = flat_map (labeledCells themes) feedbackLines).
  { unfold R. clear. induction feedbackLines as [|line rest IH];
      [reflexivity|].
    cbn [flat_map]. rewrite map_app, IH. f_equal.
    unfold rowsOf, labeledCells.
    destruct (earliestTheme themes line) as [t|]; [|reflexivity].
    destruct (0 <? length (title t)); [|reflexivity].
    cbn [map]. f_equal. rewrite parseCSVLine_tokenize.
    exact (tokenize_join_quoted comma ltac:(discriminate)
             [line; title t] ltac:(discriminate)). }
  assert (HR : R <> []).
  { intros E. rewrite E in Parse. cbn [map] in Parse. congruence. }
  assert (All : forall row, In row (csvHeader :: R) ->
            (forall c, In c row -> c <> newline /\ c <> semicolon)
            /\ NoFinalCR row
            /\ exists c, In c row /\ isWhiteSpace c = false).
  { intros row [<-|Hr].
    - split; [|split].
      + intros c Hc. cbn in Hc.
        repeat (destruct Hc as [<-|Hc]; [split; discriminate|]).
        destruct Hc.
      + intros q E. change csvHeader with (str "original_text,theme_titl"
                                                ++ [ascii_of_nat 101]) in E.
        apply app_inj_tail in E as [_ E]. discriminate.
      + exists (ascii_of_nat 111). split; [now left | reflexivity].
    - destruct (Rows row Hr) as [H1 [H2 H3]].
      split; [exact H1|]. split; [exact H2|].
      exists dquote. split; [exact H3 | reflexivity]. }
  set (text := join [newline] (csvHeader :: R)).
  assert (Split : splitCRLF text = csvHeader :: R).
  { apply splitCRLF_join; [discriminate|].
    intros p Hp. destruct (All p Hp) as [H1 [H2 _]].
    split; [|exact H2]. intros F. destruct (H1 newline F). congruence. }
  assert (Keep : filter (fun line => 0 <? length (trim line))
                        (csvHeader :: R) = csvHeader :: R).
  { apply forallb_filter_id. apply forallb_forall. intros row Hr.
    destruct (All row Hr) as [_ [_ [c [Hc Hw]]]].
    pose proof (trim_not_nil row c Hc Hw) as N.
    destruct (trim row); [congruence | reflexivity]. }
  assert (Delim : detectDelimiter text = Comma).
  { unfold detectDelimiter.
    rewrite (countChar_absent semicolon); [reflexivity|].
    intros F. apply In_join in F as [[F|[]]|[p [Hp F]]]; [discriminate|].
    unfold slice in Hp. apply MockFacts.In_firstn in Hp.
    cbn [skipn] in Hp.
    destruct (splitLF_pieces text p Hp) as [_ Hsub].
    specialize (Hsub semicolon F). unfold text in Hsub.
    apply In_join in Hsub as [[Hs|[]]|[row [Hr Hs]]]; [discriminate|].
    destruct (All row Hr) as [H1 _]. destruct (H1 semicolon Hs). congruence. }
  unfold parseCSV. fold text. rewrite Split, Keep, Delim.
  cbn [length Nat.eqb map nth_error delimiterText].
  rewrite Parse.
  replace (every headerCell (parseCSVLine csvHeader [comma])) with true
    by reflexivity.
  replace (1 <? S (length (flat_map (labeledCells themes) feedbackLines)))
    with true.
  - reflexivity.
  - symmetry. apply Nat.ltb_lt.
    destruct (flat_map (labeledCells themes) feedbackLines);
      [congruence | cbn; lia].
Qed.

(** The theorem at two lines, one of them labeled and holding a comma and
    a quote. *)
Lemma export_import_roundtrip_witness :
  let line := str "slow, " ++ [dquote] ++ str "very" ++ [dquote] in
  parseCSV (createLabeledCSV [line; str "other"]
              [mkTheme (str "Speed") [] [line] None None])
  = Returns (mkParsedCSV [[line; str "Speed"]]
               (Some [str "original_text"; str "theme_title"]) Comma).
Proof.
  cbv zeta.
  set (line := str "slow, " ++ [dquote] ++ str "very" ++ [dquote]).
  assert (Clean : forall s : jsstring,
            forallb (fun c => negb (Ascii.eqb c newline)
                              && negb (Ascii.eqb c semicolon)) s = true ->
            ~ In newline s /\ ~ In semicolon s).
  { intros s H. rewrite forallb_forall in H.
    split; intros F; specialize (H _ F); rewrite Ascii.eqb_refl in H;
      [discriminate | rewrite andb_false_r in H; discriminate]. }
  rewrite (export_import_roundtrip [line; str "other"]
             [mkTheme (str "Speed") [] [line] None None]).
  - reflexivity.
  - intros l [<-|[<-|[]]]; apply Clean; reflexivity.
  - intros t [<-|[]]; apply Clean; reflexivity.
  - discriminate.
Defined.

End RoundTripFacts.
